(** * gofabric8: the volume recreation workflow and the service commands

    A shallow embedding of [cmds/erase_pvc.go]: the pod discovery
    ([findPodsAttachedtoPVC]), the service-label expansion, the line
    filter that sanitizes the exported manifest, the delete/create of
    the claim and the eviction of the attached pods; of
    [cmds/service.go]: the checks of a service and of its endpoint, the
    retry loop and the waits built on it, the search of a service in
    the namespaces, the opening of its URL; and of the [uninstall]
    command.

    Go strings are byte strings: they are modelled by [string], whose
    characters ([ascii]) are the bytes.  A Go [error] is [option string]
    ([None] is [nil], [Some m] an error whose [Error()] is [m]). *)

From Stdlib Require Import Ascii String NArith DecimalString.
From stdpp Require Import base list strings gmap.

Local Open Scope list_scope.

(** ** Strings: the Go library functions the command uses *)

Module GoStrings.

Definition byte_val (c : ascii) : nat := nat_of_ascii c.

(** [unicode.IsSpace] on the one-byte runes. *)
Definition asciiSpace (c : ascii) : bool :=
  let n := byte_val c in
  ((9 <=? n) && (n <=? 13)) || (n =? 32).

(** UTF-8 encodings, two bytes long, of the runes [unicode.IsSpace]
    accepts: U+0085 and U+00A0. *)
Definition space2 (c0 c1 : ascii) : bool :=
  let b0 := byte_val c0 in
  let b1 := byte_val c1 in
  (b0 =? 194) && ((b1 =? 133) || (b1 =? 160)).

(** Three bytes long: U+1680, U+2000..U+200A, U+2028, U+2029, U+202F,
    U+205F and U+3000. *)
Definition space3 (c0 c1 c2 : ascii) : bool :=
  let b0 := byte_val c0 in
  let b1 := byte_val c1 in
  let b2 := byte_val c2 in
  ((b0 =? 225) && (b1 =? 154) && (b2 =? 128))
  || ((b0 =? 226) && (b1 =? 128)
      && (((128 <=? b2) && (b2 <=? 138))
          || (b2 =? 168) || (b2 =? 169) || (b2 =? 175)))
  || ((b0 =? 226) && (b1 =? 129) && (b2 =? 159))
  || ((b0 =? 227) && (b1 =? 128) && (b2 =? 128)).

(** [strings.TrimLeftFunc(s, unicode.IsSpace)] on the bytes of [s]. *)
Fixpoint trimLeft (s : list ascii) : list ascii :=
  match s with
  | [] => []
  | c0 :: r0 =>
      if asciiSpace c0 then trimLeft r0
      else
        match r0 with
        | [] => s
        | c1 :: r1 =>
            if space2 c0 c1 then trimLeft r1
            else
              match r1 with
              | [] => s
              | c2 :: r2 => if space3 c0 c1 c2 then trimLeft r2 else s
              end
        end
  end.

(** [strings.TrimRightFunc(s, unicode.IsSpace)], on the reversed bytes:
    the last rune is decoded from the nearest rune start backwards. *)
Fixpoint trimRightRev (s : list ascii) : list ascii :=
  match s with
  | [] => []
  | c0 :: r0 =>
      if asciiSpace c0 then trimRightRev r0
      else
        match r0 with
        | [] => s
        | c1 :: r1 =>
            if space2 c1 c0 then trimRightRev r1
            else
              match r1 with
              | [] => s
              | c2 :: r2 => if space3 c2 c1 c0 then trimRightRev r2 else s
              end
        end
  end.

(** [strings.TrimSpace]. *)
Definition TrimSpace (s : string) : string :=
  string_of_list_ascii
    (rev (trimRightRev (rev (trimLeft (list_ascii_of_string s))))).

(** [strings.HasPrefix(s, prefix)]. *)
Definition HasPrefix (s pfx : string) : bool := String.prefix pfx s.

(** [strings.Join(elems, sep)]. *)
Definition Join (elems : list string) (sep : string) : string :=
  String.concat sep elems.

(** The conversion [string(b)] of a byte [b]: the UTF-8 encoding of the
    rune whose code point is [b]. *)
Definition string_of_byte (c : ascii) : string :=
  let n := byte_val c in
  if n <? 128 then String c EmptyString
  else String (ascii_of_nat (192 + n / 64))
         (String (ascii_of_nat (128 + n mod 64)) EmptyString).

(** [s[i]]: indexing a string by byte; out of range it panics ([None]). *)
Definition index (s : string) (i : nat) : option ascii := String.get i s.

(** *** [bufio.Scanner] with the default split function [ScanLines] *)

Definition MaxScanTokenSize : N := 65536%N.

(** [dropCR]: one trailing carriage return is not part of the line. *)
Definition dropCR (revline : list ascii) : list ascii :=
  match revline with
  | c :: r => if (byte_val c =? 13) then r else revline
  | [] => []
  end.

Definition token (revline : list ascii) : string :=
  string_of_list_ascii (rev (dropCR revline)).

(** The tokens of the input, [cur] being the bytes of the current line
    read so far, in reverse.  A line that does not fit the buffer with
    its newline stops the scan ([Scan] returns false from then on); the
    last line needs no newline but is a token only when it has bytes. *)
Fixpoint scanFrom (data : list ascii) (cur : list ascii) (n : N) : list string :=
  match data with
  | [] =>
      match cur with
      | [] => []
      | _ => if (n <? MaxScanTokenSize)%N then [token cur] else []
      end
  | c :: rest =>
      if (byte_val c =? 10) then
        if (n <? MaxScanTokenSize)%N then token cur :: scanFrom rest [] 0%N else []
      else scanFrom rest (c :: cur) (N.succ n)
  end.

Definition scanLines (s : string) : list string :=
  scanFrom (list_ascii_of_string s) [] 0%N.

End GoStrings.

Import GoStrings.

Local Open Scope string_scope.
Local Open Scope list_scope.

(** ** Sanitizing the exported manifest *)

Definition removedExportedLine : list string :=
  [ "selfLink"; "resourceVersion"; "uid"; "creationTimestamp";
    "kubectl.kubernetes.io/last-applied-configuration:";
    "control-plane.alpha.kubernetes.io/leader:";
    "pv.kubernetes.io/";
    "volume.beta.kubernetes.io/";
    "volumeName" ].

(** The inner loop over [removedExportedLine]: the value of [stop]. *)
Definition stopLine (text : string) : bool :=
  let nsLine := TrimSpace text in
  fold_left (fun stop l => if HasPrefix nsLine l then true else stop)
            removedExportedLine false.

(** The state of the scanning loop: [inStatus] and [outputYAML]. *)
Record scanState := ScanState { inStatus : bool; outputYAML : list string }.

(** One iteration of the loop over the scanner's lines.  [None] is the
    run-time panic of [text[0]] on an empty line. *)
Definition scanStep (st : scanState) (text : string) : option scanState :=
  if stopLine text then Some st
  else if String.eqb text "status:" then Some (ScanState true (outputYAML st))
  else if inStatus st then
    match index text 0 with
    | None => None
    | Some c =>
        if negb (String.eqb (string_of_byte c) " ")
        then Some (ScanState false (outputYAML st ++ [text]))
        else Some st
    end
  else Some (ScanState (inStatus st) (outputYAML st ++ [text])).

Fixpoint scanLoop (lines : list string) (st : scanState) : option scanState :=
  match lines with
  | [] => Some st
  | text :: rest =>
      match scanStep st text with
      | None => None
      | Some st' => scanLoop rest st'
      end
  end.

(** The filter of [erasePVC] on the lines of the manifest. *)
Definition sanitize (lines : list string) : option (list string) :=
  match scanLoop lines (ScanState false []) with
  | None => None
  | Some st => Some (outputYAML st)
  end.


(** ** The cluster and the operating system

    Every call that leaves the process is a request answered by the
    environment.  The answer may depend on everything that happened
    before, so each operation reads the history of the run, and the run
    records each request with its answer. *)

Definition error := option string.

(** [api.Volume] and [api.Pod], as far as the command reads them:
    [volume.Name], [item.GetName()] and [item.Spec.Volumes]. *)
Record Volume := { Name : string }.
Record Pod := { GetName : string; Volumes : list Volume }.

Inductive Level := LInfo | LSuccess | LWarn | LError.

Inductive Event :=
| EvDefaultNamespace (ns : string)
| EvDetectNamespace (ns : string) (userNS : string) (err : error)
| EvListPods (ns : string) (pods : option (list Pod)) (err : error)
| EvLabelValue (ns pod label : string) (value : string) (err : error)
| EvServicePods (ns service : string) (pods : list string) (err : error)
| EvCommand (name : string) (args : list string) (output : string) (err : error)
| EvTempFile (dir pfx : string) (name : string) (err : error)
| EvCreateFile (path : string) (err : error)
| EvWriteFile (path : string) (content : string) (err : error)
| EvRemove (path : string)
| EvPrint (lvl : Level) (msg : string).

Definition Trace := list Event.

(** The collaborators of [erasePVC]: the client calls, the helpers of the
    package that wrap them, the external commands and the file system. *)
Record Env := {
  DefaultNamespace : Trace -> string;
  detectCurrentUserNamespace : Trace -> string -> string * error;
  PodsList : Trace -> string -> option (list Pod) * error;
  getLabelValueOfPod : Trace -> string -> string -> string -> string * error;
  getPodsDependOfService : Trace -> string -> string -> list string * error;
  runCommandWithOutput : Trace -> string -> list string -> string * error;
  TempFile : Trace -> string -> string -> string * error;
  osCreate : Trace -> string -> error;
  Flush : Trace -> string -> string -> error
}.

(** How a run ends when it does not return: [util.Fatal], [cmdutil.CheckErr]
    on an error, or a run-time panic. *)
Inductive Halt :=
| Fatal (msg : string)
| CheckErrExit (msg : string)
| Panic.

Inductive Result (A : Type) :=
| Ok (a : A)
| Stop (h : Halt).
Arguments Ok {A} a.
Arguments Stop {A} h.

(** A computation reads the history and yields a result and the events it
    adds to the history. *)
Definition M (A : Type) : Type := Trace -> Result A * list Event.

Definition ret {A} (a : A) : M A := fun _ => (Ok a, []).

Definition bind {A B} (m : M A) (f : A -> M B) : M B :=
  fun tr =>
    match m tr with
    | (Ok a, evs) =>
        match f a (tr ++ evs) with
        | (r, evs') => (r, evs ++ evs')
        end
    | (Stop h, evs) => (Stop h, evs)
    end.

Definition halt {A} (h : Halt) : M A := fun _ => (Stop h, []).

(** A request: the environment answers from the history, and the event
    made of the request and its answer is recorded. *)
Definition call {A} (answer : Trace -> A) (ev : A -> Event) : M A :=
  fun tr => let a := answer tr in (Ok a, [ev a]).

Definition emit (ev : Event) : M unit := fun _ => (Ok tt, [ev]).

Declare Scope go_scope.
Delimit Scope go_scope with go.
Notation "'do' x <- m ; k" := (bind m (fun x => k))
  (at level 10, x name, m at level 100, k at level 200) : go_scope.
Notation "'do' ' pat <- m ; k" :=
  (bind m (fun x => match x with pat => k end))
  (at level 10, pat pattern, m at level 100, k at level 200) : go_scope.
Notation "'exec' m ; k" := (bind m (fun _ => k))
  (at level 10, m at level 100, k at level 200) : go_scope.

(** The newline of the messages. *)
Definition nl : string := String (ascii_of_nat 10) EmptyString.

Section Workflow.

Variable env : Env.

Local Open Scope go_scope.

(** [cmdutil.CheckErr]: nothing on [nil], otherwise the error is printed
    and the process exits. *)
Definition CheckErr (err : error) : M unit :=
  match err with
  | None => ret tt
  | Some msg => halt (CheckErrExit msg)
  end.

(** Modelled from the spec: [util.Fatal] is not among the sources; by
    sections 5 and 7 a fatal error prints the failing command with its
    output and halts the process with a non-zero exit status. *)
Definition utilFatal {A} (msg : string) : M A := halt (Fatal msg).

Definition utilSuccess (msg : string) : M unit := emit (EvPrint LSuccess msg).

Definition fatalMessage (cmd : list string) (err : string) (output : string) : string :=
  "Error while running cmd: " +:+ Join cmd " " +:+ " Error: " +:+ err
    +:+ " Output: " +:+ output +:+ nl.

(** The pattern after every external command:
    [if err != nil { util.Fatal(...) }]. *)
Definition fatalOnError (cmd : list string) (output : string) (err : error) : M unit :=
  match err with
  | None => ret tt
  | Some e => utilFatal (fatalMessage cmd e output)
  end.

Definition kubectl (cmd : list string) : M (string * error) :=
  call (fun tr => runCommandWithOutput env tr "kubectl" cmd)
       (fun r => EvCommand "kubectl" cmd r.1 r.2).

(** The two nested loops of [findPodsAttachedtoPVC] over [pods.Items]
    and [item.Spec.Volumes]. *)
Definition attachedNames (findVolume : string) (items : list Pod) : list string :=
  fold_left
    (fun ret item =>
       fold_left
         (fun ret volume =>
            if String.eqb (Name volume) findVolume
            then ret ++ [GetName item] else ret)
         (Volumes item) ret)
    items [].

Definition findPodsAttachedtoPVC (findVolume ns : string) : M (list string * error) :=
  do '(pods, err) <- call (fun tr => PodsList env tr ns)
                       (fun r => EvListPods ns r.1 r.2) ;
  match err with
  | Some _ => ret ([], err)
  | None =>
      match pods with
      | Some items => ret (attachedNames findVolume items, None)
      | None => ret ([], None)
      end
  end.

(** The loop over the attached pods that adds the pods of their
    services.  [range] evaluates the slice once: [pods] is what is left
    of the slice the loop started with, [attachedpods] the variable the
    body appends to. *)
Fixpoint expandLoop (ns : string) (pods attachedpods : list string)
  : M (list string) :=
  match pods with
  | [] => ret attachedpods
  | pod :: rest =>
      do '(serviceName, err) <-
         call (fun tr => getLabelValueOfPod env tr ns pod "service")
              (fun r => EvLabelValue ns pod "service" r.1 r.2) ;
      exec CheckErr err ;
      if negb (String.eqb serviceName EmptyString) then
        do '(sp, err) <-
           call (fun tr => getPodsDependOfService env tr ns serviceName)
                (fun r => EvServicePods ns serviceName r.1 r.2) ;
        exec CheckErr err ;
        expandLoop ns rest
          (fold_left (fun attachedpods v => attachedpods ++ [v]) sp attachedpods)
      else expandLoop ns rest attachedpods
  end.

(** [writeLines]: create the file, print every line with a newline
    through a buffered writer, flush. *)
Definition writeLines (lines : list string) (path : string) : M error :=
  do err <- call (fun tr => osCreate env tr path) (fun r => EvCreateFile path r) ;
  match err with
  | Some _ => ret err
  | None =>
      let content := String.concat EmptyString (map (fun line => line +:+ nl) lines) in
      call (fun tr => Flush env tr path content)
           (fun r => EvWriteFile path content r)
  end.

(** The loop that deletes the attached pods. *)
Fixpoint evictLoop (userNS volumeName : string) (pods : list string) : M unit :=
  match pods with
  | [] => ret tt
  | pod :: rest =>
      let cmd := ["delete"; "-n"; userNS; "pod"; pod] in
      do '(output, err) <- kubectl cmd ;
      exec fatalOnError cmd output err ;
      exec utilSuccess ("Pod " +:+ pod +:+ " attached to " +:+ volumeName
                     +:+ " has been deleted." +:+ nl) ;
      evictLoop userNS volumeName rest
  end.

Record erasePVCFlags := { args : list string; userNS : string; volumeName : string }.

(** [erasePVC].  The factory [f] and the clients [c] and [oc] built from
    it are the environment [env]; the namespace [ns] is what
    [f.DefaultNamespace()] answers, its error being dropped.  The
    function returns its named result [err], which is [nil] whenever the
    end is reached. *)
Definition erasePVC (p : erasePVCFlags) : M error :=
  do ns <- call (DefaultNamespace env) EvDefaultNamespace ;
  do '(detected, err) <- call (fun tr => detectCurrentUserNamespace env tr ns)
                           (fun r => EvDetectNamespace ns r.1 r.2) ;
  exec CheckErr err ;
  let userNS := if negb (String.eqb (userNS p) EmptyString) then userNS p else detected in
  do '(attachedpods, err) <- findPodsAttachedtoPVC (volumeName p) userNS ;
  exec CheckErr err ;
  do attachedpods <- expandLoop ns attachedpods attachedpods ;
  let cmd := ["get"; "-o"; "yaml"; "-n"; userNS; "pvc"; volumeName p] in
  do '(output, err) <- kubectl cmd ;
  exec fatalOnError cmd output err ;
  match sanitize (scanLines output) with
  | None => halt Panic
  | Some outputYAML =>
      do '(tmpfile, err) <- call (fun tr => TempFile env tr EmptyString "gofabric8")
                              (fun r => EvTempFile EmptyString "gofabric8" r.1 r.2) ;
      exec CheckErr err ;
      do err <- writeLines outputYAML tmpfile ;
      exec CheckErr err ;
      let cmd := ["delete"; "-n"; userNS; "pvc"; volumeName p] in
      do '(output, err) <- kubectl cmd ;
      exec fatalOnError cmd output err ;
      let cmd := ["create"; "-n"; userNS; "-f"; tmpfile] in
      do '(output, err) <- kubectl cmd ;
      exec fatalOnError cmd output err ;
      exec evictLoop userNS (volumeName p) attachedpods ;
      exec utilSuccess ("Volume: " +:+ volumeName p +:+ " has been recreated." +:+ nl) ;
      exec emit (EvRemove tmpfile) ;
      ret None
  end.

End Workflow.

(** ** Reading a run *)

(** A pod declares a volume with the name [findVolume]. *)
Definition declares (findVolume : string) (item : Pod) : Prop :=
  findVolume ∈ map Name (Volumes item).

#[global] Instance declares_dec findVolume item : Decision (declares findVolume item).
Proof. unfold declares. apply _. Defined.

(** The pod an event deletes, when the event is
    [kubectl delete -n <ns> pod <pod>]. *)
Definition podDeletion (ev : Event) : option string :=
  match ev with
  | EvCommand _ [a0; _; _; a3; pod] _ _ =>
      if String.eqb a0 "delete" && String.eqb a3 "pod" then Some pod else None
  | _ => None
  end.

Definition podDeletions (evs : list Event) : list string := omap podDeletion evs.

(** The pod whose label an event reads. *)
Definition labelLookup (ev : Event) : option string :=
  match ev with
  | EvLabelValue _ pod _ _ _ => Some pod
  | _ => None
  end.

Definition labelLookups (evs : list Event) : list string := omap labelLookup evs.

(** The pods a service lookup returned. *)
Definition serviceAnswer (ev : Event) : option (list string) :=
  match ev with
  | EvServicePods _ _ pods _ => Some pods
  | _ => None
  end.

Definition serviceAnswers (evs : list Event) : list (list string) :=
  omap serviceAnswer evs.

(** The external commands of a run, with their arguments. *)
Definition command (ev : Event) : option (list string) :=
  match ev with
  | EvCommand _ args _ _ => Some args
  | _ => None
  end.

Definition commands (evs : list Event) : list (list string) := omap command evs.

(** The command of an event failed. *)
Definition commandFailed (ev : Event) : bool :=
  match ev with
  | EvCommand _ _ _ (Some _) => true
  | _ => false
  end.

(** What the run printed. *)
Definition printed (ev : Event) : option (Level * string) :=
  match ev with
  | EvPrint lvl msg => Some (lvl, msg)
  | _ => None
  end.

Definition messages (evs : list Event) : list (Level * string) := omap printed evs.

#[global] Instance Volume_eq_dec : EqDecision Volume.
Proof. solve_decision. Defined.
#[global] Instance Pod_eq_dec : EqDecision Pod.
Proof. solve_decision. Defined.
#[global] Instance Level_eq_dec : EqDecision Level.
Proof. solve_decision. Defined.
#[global] Instance Event_eq_dec : EqDecision Event.
Proof. solve_decision. Defined.
#[global] Instance Halt_eq_dec : EqDecision Halt.
Proof. solve_decision. Defined.

(** ** Scripted clusters

    A cluster that answers the same way whatever happened before: its
    pods with their [service] label, the manifest [kubectl get] prints,
    and the commands that fail. *)
Record Cluster := {
  clusterNamespace : string;
  clusterPods : list (Pod * string);
  clusterManifest : list string;
  clusterFailing : list (list string)
}.

Definition labelOf (c : Cluster) (pod : string) : string :=
  match List.find (fun ps => String.eqb (GetName ps.1) pod) (clusterPods c) with
  | Some ps => ps.2
  | None => EmptyString
  end.

Definition podsOfService (c : Cluster) (service : string) : list string :=
  map (fun ps => GetName ps.1)
      (List.filter (fun ps => String.eqb ps.2 service) (clusterPods c)).

Definition scripted (c : Cluster) : Env := {|
  DefaultNamespace := fun _ => clusterNamespace c;
  detectCurrentUserNamespace := fun _ ns => (ns, None);
  PodsList := fun _ _ => (Some (map fst (clusterPods c)), None);
  getLabelValueOfPod := fun _ _ pod _ => (labelOf c pod, None);
  getPodsDependOfService := fun _ _ service => (podsOfService c service, None);
  runCommandWithOutput := fun _ _ args =>
    if bool_decide (args ∈ clusterFailing c) then ("boom", Some "exit status 1")
    else match args with
         | a0 :: _ =>
             if String.eqb a0 "get"
             then (String.concat EmptyString (map (fun l => l +:+ nl) (clusterManifest c)), None)
             else (EmptyString, None)
         | [] => (EmptyString, None)
         end;
  TempFile := fun _ _ pfx => ("/tmp/" +:+ pfx +:+ "042", None);
  osCreate := fun _ _ => None;
  Flush := fun _ _ _ => None
|}.

Definition mounting (name claim : string) : Pod :=
  {| GetName := name; Volumes := [ {| Name := claim |} ] |}.

Definition flagsFor (claim : string) : erasePVCFlags :=
  {| args := [claim]; userNS := EmptyString; volumeName := claim |}.

(** The manifest of the end-to-end scenario. *)
Definition scenario : list string :=
  ["apiVersion: v1"; "metadata:"; "  selfLink: /x"; "  name: foo"; "status:";
   "  phase: Bound"; "spec:"; "  capacity: 1Gi"].

(** The scenario manifest around its status block. *)
Definition scenarioPre : list string :=
  ["apiVersion: v1"; "metadata:"; "  selfLink: /x"; "  name: foo"].
Definition scenarioBlock : list string := ["  phase: Bound"].
Definition plainPre : list string := ["apiVersion: v1"; "metadata:"; "  name: foo"].
Definition scenarioPost : list string := ["spec:"; "  capacity: 1Gi"].

(** The end-to-end scenario: [app-1] mounts the claim, [app-2] shares its
    [service] label. *)
Definition scenarioCluster : Cluster := {|
  clusterNamespace := "ns1";
  clusterPods := [ (mounting "app-1" "data-pv-claim", "app");
                   ({| GetName := "app-2"; Volumes := [] |}, "app") ];
  clusterManifest := scenario;
  clusterFailing := []
|}.

(** Two pods mount the claim and the deletion of the first one fails. *)
Definition evictionFails : Cluster := {|
  clusterNamespace := "ns1";
  clusterPods := [ (mounting "a" "data-pv-claim", EmptyString);
                   (mounting "b" "data-pv-claim", EmptyString) ];
  clusterManifest := scenario;
  clusterFailing := [ ["delete"; "-n"; "ns1"; "pod"; "a"] ]
|}.

(** The claim is deleted and its creation fails. *)
Definition creationFails : Cluster := {|
  clusterNamespace := "ns1";
  clusterPods := [ (mounting "a" "data-pv-claim", EmptyString) ];
  clusterManifest := scenario;
  clusterFailing := [ ["create"; "-n"; "ns1"; "-f"; "/tmp/gofabric8042"] ]
|}.

(** No pod mounts the claim. *)
Definition noPods : Cluster := {|
  clusterNamespace := "ns1";
  clusterPods := [ ({| GetName := "other"; Volumes := [ {| Name := "cache" |} ] |}, EmptyString) ];
  clusterManifest := scenario;
  clusterFailing := []
|}.

(** The exported manifest has a blank line inside its status block. *)
Definition blankInStatus : Cluster := {|
  clusterNamespace := "ns1";
  clusterPods := [ (mounting "a" "data-pv-claim", EmptyString) ];
  clusterManifest := ["metadata:"; "status:"; "  phase: Bound"; EmptyString; "spec:"];
  clusterFailing := []
|}.

(** ** The claims as the specification words them, where the code differs *)

(** A line that starts with leading whitespace. *)
Definition whitespaceLed (text : string) : bool :=
  match index text 0 with
  | Some c => asciiSpace c
  | None => false
  end.

(** "Sanitization removes exactly the [status:] line and the N lines
    after it that start with whitespace, and preserves all lines before
    and after." *)
Definition removesExactlyTheBlock : Prop :=
  forall pre block post : list string,
    Forall (fun t => whitespaceLed t = true) block ->
    match post with
    | [] => True
    | text :: _ => whitespaceLed text = false
    end ->
    sanitize (pre ++ "status:" :: block ++ post) = Some (pre ++ post).

(** "Each deletion is attempted independently": every attached pod gets
    its deletion request. *)
Definition everyPodAttempted (pods : list string) (evs : list Event) : Prop :=
  forall pod, pod ∈ pods -> pod ∈ podDeletions evs.

(** "The no-pods condition is reported as a warning." *)
Definition warned (evs : list Event) : Prop :=
  exists msg, (LWarn, msg) ∈ messages evs.

(** A line the status block swallows: it begins with the byte [0x20]. *)
Definition startsWithSpace (text : string) : Prop :=
  exists rest, text = String " "%char rest.

(** The line after a status block that closes it: an empty input after
    the block, or a line with a first byte, other than a space, that the
    prefix filter keeps. *)
Definition closesBlock (post : list string) : Prop :=
  match post with
  | [] => True
  | text :: _ => text <> EmptyString /\ ~ startsWithSpace text /\ stopLine text = false
  end.

(** ** More readings of a run *)

(** The attached pods a listing gives: the names [findPodsAttachedtoPVC]
    returns for the items of a successful listing. *)
Definition listing (findVolume : string) (ev : Event) : option (list string) :=
  match ev with
  | EvListPods _ (Some items) None => Some (attachedNames findVolume items)
  | _ => None
  end.

Definition discovered (findVolume : string) (evs : list Event) : list string :=
  concat (omap (listing findVolume) evs).

(** The attached pods of a run: the discovered ones, then the pods the
    service lookups answered. *)
Definition attached (findVolume : string) (evs : list Event) : list string :=
  discovered findVolume evs ++ concat (serviceAnswers evs).

(** The commands of a complete run on the claim [claim] in the namespace
    [ns], with the manifest in [tmpfile] and the attached pods [pods]. *)
Definition plan (ns claim tmpfile : string) (pods : list string) : list (list string) :=
  ["get"; "-o"; "yaml"; "-n"; ns; "pvc"; claim]
  :: ["delete"; "-n"; ns; "pvc"; claim]
  :: ["create"; "-n"; ns; "-f"; tmpfile]
  :: map (fun pod => ["delete"; "-n"; ns; "pod"; pod]) pods.

(** The namespace of the run: the flag when it is set, otherwise the
    namespace that was detected. *)
Definition detection (ev : Event) : option string :=
  match ev with
  | EvDetectNamespace _ userNS _ => Some userNS
  | _ => None
  end.

Definition namespaceOf (p : erasePVCFlags) (evs : list Event) : string :=
  if negb (String.eqb (userNS p) EmptyString) then userNS p
  else default EmptyString (head (omap detection evs)).

(** The temporary file of the run. *)
Definition tempFile (ev : Event) : option string :=
  match ev with
  | EvTempFile _ _ name _ => Some name
  | _ => None
  end.

Definition tmpfileOf (evs : list Event) : string :=
  default EmptyString (head (omap tempFile evs)).

(** The pod an event deleted: the deletion command returned no error. *)
Definition podDeleted (ev : Event) : option string :=
  match ev with
  | EvCommand _ _ _ (Some _) => None
  | _ => podDeletion ev
  end.

(** The message [evictLoop] prints for a deleted pod. *)
Definition deletedMessage (volumeName pod : string) : Level * string :=
  (LSuccess,
   "Pod " +:+ pod +:+ " attached to " +:+ volumeName +:+ " has been deleted." +:+ nl).

(** The value of a label that was read without error. *)
Definition labelValue (ev : Event) : option string :=
  match ev with
  | EvLabelValue _ _ _ value None => Some value
  | _ => None
  end.

(** The service an event looks the pods up for. *)
Definition serviceLookup (ev : Event) : option string :=
  match ev with
  | EvServicePods _ service _ _ => Some service
  | _ => None
  end.

(** The temporary file an event removes. *)
Definition removal (ev : Event) : option string :=
  match ev with
  | EvRemove path => Some path
  | _ => None
  end.

(** The file an event writes: its path, its content and the error of the
    flush. *)
Definition written (ev : Event) : option (string * string * error) :=
  match ev with
  | EvWriteFile path content err => Some (path, content, err)
  | _ => None
  end.

(** The manifest an event exports: the output of a [get] command that
    returned no error. *)
Definition exported (ev : Event) : option string :=
  match ev with
  | EvCommand _ (a0 :: _) output None =>
      if String.eqb a0 "get" then Some output else None
  | _ => None
  end.

(** The namespace in which an event reads a label or the pods of a
    service, and the namespace in which it lists the pods. *)
Definition lookupNamespace (ev : Event) : option string :=
  match ev with
  | EvLabelValue ns _ _ _ _ => Some ns
  | EvServicePods ns _ _ _ => Some ns
  | _ => None
  end.

Definition listingNamespace (ev : Event) : option string :=
  match ev with
  | EvListPods ns _ _ => Some ns
  | _ => None
  end.

(** The default namespace of the run. *)
Definition defaultNamespace (ev : Event) : option string :=
  match ev with
  | EvDefaultNamespace ns => Some ns
  | _ => None
  end.

Definition defaultNamespaceOf (evs : list Event) : string :=
  default EmptyString (head (omap defaultNamespace evs)).

(** What [writeLines] puts in the file. *)
Definition fileContent (lines : list string) : string :=
  String.concat EmptyString (map (fun line => line +:+ nl) lines).

(** A line that a file written by [writeLines] gives back to the line
    scanner: no newline in it, no carriage return at its end, and short
    enough for the scanner's buffer. *)
Definition scannable (line : string) : Prop :=
  Forall (fun c => byte_val c <> 10) (list_ascii_of_string line)
  /\ last (list_ascii_of_string line) <> Some (ascii_of_nat 13)
  /\ (N.of_nat (String.length line) < MaxScanTokenSize)%N.

(** The namespace flag is set and differs from the default namespace. *)
Definition otherNamespace : Cluster := {|
  clusterNamespace := "ns1";
  clusterPods := [ (mounting "a" "data-pv-claim", "app") ];
  clusterManifest := scenario;
  clusterFailing := []
|}.

Definition flagsIn (ns claim : string) : erasePVCFlags :=
  {| args := [claim]; userNS := ns; volumeName := claim |}.

(** The export of the manifest fails. *)
Definition exportFails : Cluster := {|
  clusterNamespace := "ns1";
  clusterPods := [ (mounting "a" "data-pv-claim", EmptyString) ];
  clusterManifest := scenario;
  clusterFailing := [ ["get"; "-o"; "yaml"; "-n"; "ns1"; "pvc"; "data-pv-claim"] ]
|}.

(** ** Runs of the other commands

    The same embedding as for [erasePVC], for any type of events: a
    command reads the history and returns its result, or the way it
    halted, with the events it added. *)

Module Run.

(** How a run ends when it does not return: [os.Exit], or a run-time
    panic (a [nil] dereference, an index out of range). *)
Inductive Halt :=
| Exit (code : Z)
| Panic.

Inductive Result (A : Type) :=
| Ok (a : A)
| Stop (h : Halt).
Arguments Ok {A} a.
Arguments Stop {A} h.

Definition M (E A : Type) : Type := list E -> Result A * list E.

Definition ret {E A} (a : A) : M E A := fun _ => (Ok a, []).

Definition bind {E A B} (m : M E A) (f : A -> M E B) : M E B :=
  fun tr =>
    match m tr with
    | (Ok a, evs) =>
        match f a (tr ++ evs) with
        | (r, evs') => (r, evs ++ evs')
        end
    | (Stop h, evs) => (Stop h, evs)
    end.

Definition halt {E A} (h : Halt) : M E A := fun _ => (Stop h, []).

Definition call {E A} (answer : list E -> A) (ev : A -> E) : M E A :=
  fun tr => let a := answer tr in (Ok a, [ev a]).

Definition emit {E} (ev : E) : M E unit := fun _ => (Ok tt, [ev]).

Declare Scope run_scope.
Delimit Scope run_scope with run.
Notation "'do' x <- m ; k" := (bind m (fun x => k))
  (at level 10, x name, m at level 100, k at level 200) : run_scope.
Notation "'do' ' pat <- m ; k" :=
  (bind m (fun x => match x with pat => k end))
  (at level 10, pat pattern, m at level 100, k at level 200) : run_scope.
Notation "'exec' m ; k" := (bind m (fun _ => k))
  (at level 10, m at level 100, k at level 200) : run_scope.

End Run.

(** ** The service commands ([cmds/service.go])

    The requests these functions make are the services and endpoints
    of a namespace, the projects and namespaces of the cluster and the
    clock. *)

Module Service.
Import Run.

Definition exposeURLAnnotation : string := "fabric8.io/exposeUrl".

(** [api.Endpoints], [api.Service] as far as the functions read them.
    [Annotations] is a Go map, which may be [nil]. *)
Record EndpointSubset := {
  Addresses : list string;
  NotReadyAddresses : list string
}.
Record Endpoints := { Subsets : list EndpointSubset }.
Record LoadBalancerIngress := { IP : string; Hostname : string }.
Record Service := {
  Name : string;
  Annotations : option (gmap string string);
  Ingress : list LoadBalancerIngress
}.

(** [svc.ObjectMeta.Annotations[key]]: the zero value on a [nil] map or
    a missing key. *)
Definition annotation (svc : Service) (key : string) : string :=
  match Annotations svc with
  | Some m => default EmptyString (m !! key)
  | None => EmptyString
  end.

Inductive Event :=
| EvDefaultNamespace (ns : string)
| EvServicesGet (ns name : string) (svc : option Service) (err : error)
| EvServicesList (ns : string) (svcs : option (list Service)) (err : error)
| EvEndpoints (ns : string) (isNil : bool)
| EvEndpointsGet (ns name : string) (endpoint : option Endpoints) (err : error)
| EvTypeOfMaster (openShift : bool)
| EvProjectsList (projects : option (list string)) (err : error)
| EvNamespacesList (namespaces : option (list string)) (err : error)
| EvSleep (d : Z)
| EvStderr (msg : string)
| EvPrint (lvl : Level) (msg : string)
| EvOpenURL (url : string).

Definition Trace := list Event.

(** The cluster as these functions see it.  A pointer a request returns
    may be [nil]. *)
Record Env := {
  DefaultNamespace : Trace -> string;
  ServicesGet : Trace -> string -> string -> option Service * error;
  ServicesList : Trace -> string -> option (list Service) * error;
  EndpointsIsNil : Trace -> string -> bool;
  EndpointsGet : Trace -> string -> string -> option Endpoints * error;
  TypeOfMasterIsOpenShift : Trace -> bool;
  ProjectsList : Trace -> option (list string) * error;
  NamespacesList : Trace -> option (list string) * error
}.

(** A command of this file: a run over its events. *)
Definition Cmd (A : Type) : Type := M Event A.

(** [10*time.Second], in nanoseconds. *)
Definition tenSeconds : Z := 10 * 1000000000.

Section Code.

Variable env : Env.

(** [fmt.Sprintf(format)] without operand, as [fmt.Errorf] of
    [MultiError.ToError] calls it on the joined messages. *)
Variable Sprintf0 : string -> string.

Local Open Scope run_scope.

(** [util.Errorf], [util.Info] and [util.Successf] of the package
    [util]: the call is recorded with the formatted message. *)
Definition utilErrorf (msg : string) : Cmd unit := emit (EvPrint LError msg).
Definition utilInfo (msg : string) : Cmd unit := emit (EvPrint LInfo msg).
Definition utilSuccessf (msg : string) : Cmd unit := emit (EvPrint LSuccess msg).

(** [*p] of a pointer a request returned. *)
Definition deref {A} (p : option A) : Cmd A :=
  match p with
  | Some a => ret a
  | None => halt Panic
  end.

(** *** [MultiError] *)

Record MultiError := { Errors : list error }.

Definition Collect (m : MultiError) (err : error) : MultiError :=
  match err with
  | Some _ => {| Errors := Errors m ++ [err] |}
  | None => m
  end.

(** The loop of [ToError] over [m.Errors]; [err.Error()] on a [nil]
    error panics. *)
Fixpoint errorStrings (errs : list error) (errStrings : list string)
  : option (list string) :=
  match errs with
  | [] => Some errStrings
  | Some msg :: rest => errorStrings rest (errStrings ++ [msg])
  | None :: _ => None
  end.

Definition ToError (m : MultiError) : Cmd error :=
  if (length (Errors m) =? 0)%nat then ret None
  else
    match errorStrings (Errors m) [] with
    | Some errStrings => ret (Some (Sprintf0 (Join errStrings nl)))
    | None => halt Panic
    end.

(** *** [Retry] and [RetryAfter] *)

(** The loop of [RetryAfter], [n] being the number of iterations left,
    [attempts - i]. *)
Fixpoint retryLoop (n : nat) (callback : Cmd error) (d : Z) (m : MultiError)
  : Cmd error :=
  match n with
  | O => ToError m
  | S n' =>
      do err <- callback ;
      match err with
      | None => ret None
      | Some _ =>
          let m := Collect m err in
          exec emit (EvSleep d) ;
          retryLoop n' callback d m
      end
  end.

Definition RetryAfter (attempts : Z) (callback : Cmd error) (d : Z) : Cmd error :=
  retryLoop (Z.to_nat attempts) callback d {| Errors := [] |}.

Definition Retry (attempts : Z) (callback : Cmd error) : Cmd error :=
  RetryAfter attempts callback 0.

(** *** The checks *)

Definition notReadyYet : string := "Endpoint for service is not ready yet" +:+ nl.

(** The loop of [CheckEndpointReady] over [endpoint.Subsets]. *)
Fixpoint checkSubsets (subsets : list EndpointSubset) : Cmd error :=
  match subsets with
  | [] => ret None
  | subset :: rest =>
      if negb (length (NotReadyAddresses subset) =? 0)%nat then
        exec emit (EvStderr ("Waiting, endpoint for service is not ready yet..." +:+ nl)) ;
        ret (Some notReadyYet)
      else checkSubsets rest
  end.

Definition CheckEndpointReady (endpoint : option Endpoints) : Cmd error :=
  do endpoint <- deref endpoint ;
  if (length (Subsets endpoint) =? 0)%nat then
    exec emit (EvStderr ".") ;
    ret (Some notReadyYet)
  else checkSubsets (Subsets endpoint).

Definition servicesGet (ns name : string) : Cmd (option Service * error) :=
  call (fun tr => ServicesGet env tr ns name)
       (fun r => EvServicesGet ns name r.1 r.2).

(** [endpoints := c.Endpoints(ns)] with its test against [nil], then
    [endpoints.Get(service)], which panics on a [nil] interface. *)
Definition endpointsGet (ns service : string) : Cmd (option Endpoints * error) :=
  do isNil <- call (fun tr => EndpointsIsNil env tr ns) (EvEndpoints ns) ;
  if (isNil : bool) then
    exec utilErrorf ("No endpoints found in namespace " +:+ ns +:+ nl) ;
    halt Panic
  else
    call (fun tr => EndpointsGet env tr ns service)
         (fun r => EvEndpointsGet ns service r.1 r.2).

Definition CheckService (ns service : string) : Cmd error :=
  do '(endpoint, err) <- endpointsGet ns service ;
  match err with
  | Some _ =>
      exec utilErrorf ("No endpoints found for service " +:+ service +:+ nl) ;
      ret err
  | None => CheckEndpointReady endpoint
  end.

Definition CheckExternalService (ns service : string) : Cmd error :=
  do '(svc, err) <- servicesGet ns service ;
  match err with
  | Some _ => ret err
  | None =>
      do svc <- deref svc ;
      let url := annotation svc exposeURLAnnotation in
      if String.eqb url EmptyString then ret (Some "No external URL annotation")
      else
        do '(endpoint, err) <- endpointsGet ns service ;
        match err with
        | Some _ =>
            exec utilErrorf ("No endpoints found for service " +:+ service +:+ nl) ;
            ret err
        | None => CheckEndpointReady endpoint
        end
  end.

Definition CheckServiceExists (ns service : string) : Cmd error :=
  do '(svc, err) <- servicesGet ns service ;
  match err with
  | Some _ => ret err
  | None =>
      do svc <- deref svc ;
      let url := annotation svc exposeURLAnnotation in
      if String.eqb url EmptyString then
        exec utilInfo "." ;
        ret (Some EmptyString)
      else ret None
  end.

(** [svc.Status.LoadBalancer.Ingress[0]]. *)
Definition firstIngress (svc : Service) : Cmd LoadBalancerIngress :=
  match Ingress svc with
  | ingress :: _ => ret ingress
  | [] => halt Panic
  end.

Definition noExternalIP : string := "Service has no external ip or hostname yet" +:+ nl.

Definition HasExternalIP (ns serviceName : string) : Cmd error :=
  do '(svc, err) <- servicesGet ns serviceName ;
  match err with
  | Some _ => ret err
  | None =>
      do svc <- deref svc ;
      if (0 <? length (Ingress svc))%nat then
        do ingress <- firstIngress svc ;
        if negb (String.eqb (IP ingress) EmptyString)
           || negb (String.eqb (Hostname ingress) EmptyString)
        then ret None
        else ret (Some noExternalIP)
      else ret (Some noExternalIP)
  end.

(** The pattern of the waiting functions:
    [if err := RetryAfter(1200, ..., 10*time.Second); err != nil
     { util.Errorf(...); os.Exit(1) }]. *)
Definition waitFor (what serviceName : string) (callback : Cmd error) : Cmd unit :=
  do err <- RetryAfter 1200 callback tenSeconds ;
  match err with
  | Some msg =>
      exec utilErrorf (what +:+ serviceName +:+ ": " +:+ msg) ;
      halt (Exit 1)
  | None => ret tt
  end.

Definition WaitForService (ns serviceName : string) : Cmd unit :=
  waitFor "Could not find finalized endpoint being pointed to by "
          serviceName (CheckService ns serviceName).

Definition WaitForExternalIPAddress (ns serviceName : string)
  : Cmd (string * error) :=
  exec waitFor "Could not find external IP for " serviceName
               (HasExternalIP ns serviceName) ;
  do '(svc, err) <- servicesGet ns serviceName ;
  match err with
  | Some _ => ret (EmptyString, err)
  | None =>
      do svc <- deref svc ;
      do ingress <- firstIngress svc ;
      if negb (String.eqb (IP ingress) EmptyString) then ret (IP ingress, None)
      else
        do ingress <- firstIngress svc ;
        ret (Hostname ingress, None)
  end.

Definition GetServiceURL (ns serviceName : string) : Cmd string :=
  do '(svc, err) <- servicesGet ns serviceName ;
  match err with
  | Some _ => ret EmptyString
  | None =>
      do svc <- deref svc ;
      match Annotations svc with
      | Some ann => ret (default EmptyString (ann !! exposeURLAnnotation))
      | None => ret EmptyString
      end
  end.

Definition FindServiceURL (ns serviceName : string) (retry : bool) : Cmd string :=
  exec (if retry
        then waitFor "Could not find finalized endpoint being pointed to by "
                     serviceName (CheckServiceExists ns serviceName)
        else ret tt) ;
  do '(svc, err) <- servicesGet ns serviceName ;
  exec match err with
       | Some msg =>
           utilErrorf ("No service " +:+ serviceName +:+ " found " +:+ msg +:+ nl)
       | None => ret tt
       end ;
  do svc <- deref svc ;
  let url := annotation svc exposeURLAnnotation in
  if (0 <? String.length url)%nat then ret url else ret EmptyString.

(** *** [openService] *)

(** The loop of [openService] over [svcs.Items], returning [found]. *)
Fixpoint openLoop (serviceName : string) (printURL : bool)
    (items : list Service) : Cmd bool :=
  match items with
  | [] => ret false
  | service :: rest =>
      if String.eqb serviceName (Name service) then
        let url := annotation service exposeURLAnnotation in
        exec (if printURL then utilSuccessf (url +:+ nl)
              else
                exec utilSuccessf (nl +:+ "Opening URL " +:+ url +:+ nl) ;
                emit (EvOpenURL url)) ;
        ret true
      else openLoop serviceName printURL rest
  end.

Definition openService (ns serviceName : string) (printURL retry : bool)
  : Cmd unit :=
  exec (if retry
        then waitFor "Could not find finalized endpoint being pointed to by "
                     serviceName (CheckExternalService ns serviceName)
        else ret tt) ;
  do '(svcs, err) <- call (fun tr => ServicesList env tr ns)
                          (fun r => EvServicesList ns r.1 r.2) ;
  exec match err with
       | Some msg => utilErrorf ("No services found " +:+ msg +:+ nl)
       | None => ret tt
       end ;
  do items <- deref svcs ;
  do found <- openLoop serviceName printURL items ;
  if negb found then
    utilErrorf ("No service " +:+ serviceName +:+ " in namespace " +:+ ns +:+ nl)
  else ret tt.

(** *** [FindServiceInEveryNamespace] *)

Definition noURLAnnotation (serviceName : string) : string :=
  "no url annotations has been set for service " +:+ serviceName +:+ ".".

Definition notFoundAnywhere (serviceName : string) : string :=
  "service " +:+ serviceName +:+ " has not been found in any namespaces or projects.".

(** What every branch does with a service that was found. *)
Definition urlOf (svc : option Service) (serviceName : string)
  : Cmd (string * error) :=
  do svc <- deref svc ;
  let url := annotation svc exposeURLAnnotation in
  if (0 <? String.length url)%nat then ret (url, None)
  else ret (EmptyString, Some (noURLAnnotation serviceName)).

(** The loop over the projects of an OpenShift master. *)
Fixpoint findInProjects (serviceName : string) (projects : list string)
  : Cmd (string * error) :=
  match projects with
  | [] => ret (EmptyString, Some (notFoundAnywhere serviceName))
  | ns :: rest =>
      do '(svc, err) <- servicesGet ns serviceName ;
      match err with
      | None => urlOf svc serviceName
      | Some _ => findInProjects serviceName rest
      end
  end.

(** The loop over the namespaces of a Kubernetes master: its body
    returns in both branches. *)
Definition findInNamespaces (serviceName : string) (namespaces : list string)
  : Cmd (string * error) :=
  match namespaces with
  | [] => ret (EmptyString, Some (notFoundAnywhere serviceName))
  | ns :: _ =>
      do '(svc, _) <- servicesGet ns serviceName ;
      urlOf svc serviceName
  end.

Definition FindServiceInEveryNamespace (serviceName : string)
  : Cmd (string * error) :=
  do ns <- call (DefaultNamespace env) EvDefaultNamespace ;
  do '(svc, err) <- servicesGet ns serviceName ;
  match err with
  | None => urlOf svc serviceName
  | Some _ =>
      do openShift <- call (TypeOfMasterIsOpenShift env) EvTypeOfMaster ;
      if (openShift : bool) then
        do '(projects, err) <- call (ProjectsList env)
                                    (fun r => EvProjectsList r.1 r.2) ;
        match err with
        | Some _ => ret (EmptyString, err)
        | None =>
            do projects <- deref projects ;
            findInProjects serviceName projects
        end
      else
        do '(namespaces, err) <- call (NamespacesList env)
                                      (fun r => EvNamespacesList r.1 r.2) ;
        match err with
        | Some _ => ret (EmptyString, err)
        | None =>
            do namespaces <- deref namespaces ;
            findInNamespaces serviceName namespaces
        end
  end.

End Code.

(** *** Reading a run *)

Definition sleep (ev : Event) : option Z :=
  match ev with
  | EvSleep d => Some d
  | _ => None
  end.

Definition sleeps (evs : list Event) : list Z := omap sleep evs.

Definition serviceGet (ev : Event) : option string :=
  match ev with
  | EvServicesGet ns _ _ _ => Some ns
  | _ => None
  end.

Definition endpointGet (ev : Event) : option (option Endpoints * error) :=
  match ev with
  | EvEndpointsGet _ _ endpoint err => Some (endpoint, err)
  | _ => None
  end.

(** An endpoint that [CheckEndpointReady] accepts. *)
Definition ready (endpoint : Endpoints) : Prop :=
  Subsets endpoint <> [] /\
  Forall (fun subset => NotReadyAddresses subset = []) (Subsets endpoint).

(** The calls of [RetryAfter] that failed: from the history [tr], the
    callback returned the errors [msgs] one after the other, each call
    followed by a sleep of [d], and [evs] is what happened. *)
Inductive Failures (callback : Cmd error) (d : Z)
  : Trace -> list string -> list Event -> Prop :=
| failures_nil tr : Failures callback d tr [] []
| failures_cons tr msg evs msgs evs' :
    callback tr = (Ok (Some msg), evs) ->
    Failures callback d (tr ++ evs ++ [EvSleep d]) msgs evs' ->
    Failures callback d tr (msg :: msgs) (evs ++ EvSleep d :: evs').

Definition opened (ev : Event) : option string :=
  match ev with
  | EvOpenURL url => Some url
  | _ => None
  end.

Definition servicesListed (ev : Event) : option (list Service) :=
  match ev with
  | EvServicesList _ (Some items) _ => Some items
  | _ => None
  end.

(** What [openService] does with the URL of the service it found. *)
Definition shown (printURL : bool) (url : string) : list Event :=
  if printURL then [EvPrint LSuccess (url +:+ nl)]
  else [EvPrint LSuccess (nl +:+ "Opening URL " +:+ url +:+ nl); EvOpenURL url].

Definition found (ev : Event) : option string :=
  match ev with
  | EvServicesGet ns _ _ None => Some ns
  | _ => None
  end.

Definition namespacesListed (ev : Event) : option (list string) :=
  match ev with
  | EvNamespacesList (Some namespaces) None => Some namespaces
  | _ => None
  end.

Definition projectsListed (ev : Event) : option (list string) :=
  match ev with
  | EvProjectsList (Some projects) None => Some projects
  | _ => None
  end.

(** A lookup of the service that failed. *)
Definition failedLookup (serviceName : string)
    (lookup : string * (option Service * string)) : Event :=
  EvServicesGet lookup.1 serviceName lookup.2.1 (Some lookup.2.2).

(** What the functions make of a service they looked up: the URL of its
    annotation, and the address of its first load-balancer ingress. *)
Definition urlResult (serviceName : string) (svc : option Service)
  : Result (string * error) :=
  match svc with
  | None => Stop Panic
  | Some svc =>
      if String.eqb (annotation svc exposeURLAnnotation) EmptyString
      then Ok (EmptyString, Some (noURLAnnotation serviceName))
      else Ok (annotation svc exposeURLAnnotation, None)
  end.

Definition addressResult (svc : option Service) : Result (string * error) :=
  match svc with
  | Some svc =>
      match Ingress svc with
      | ingress :: _ =>
          Ok (if String.eqb (IP ingress) EmptyString
              then Hostname ingress else IP ingress, None)
      | [] => Stop Panic
      end
  | None => Stop Panic
  end.

(** *** Scripted clusters *)

Definition exposed (url : string) : Service :=
  {| Name := "gogs";
     Annotations := Some {[ exposeURLAnnotation := url ]};
     Ingress := [] |}.

Definition balanced (ingress : list LoadBalancerIngress) : Service :=
  {| Name := "gogs"; Annotations := None; Ingress := ingress |}.

Definition notFound : option Service * error :=
  (Some (balanced []), Some "services not found").

(** A cluster whose namespaces are [listed], with the service in the
    namespaces of [homes]. *)
Definition hosting (openShift : bool) (listed : list string)
    (homes : list (string * Service)) : Env :=
  {| DefaultNamespace := fun _ => "default";
     ServicesGet := fun _ ns _ =>
       match list_find (fun home => home.1 = ns) homes with
       | Some (_, home) => (Some home.2, None)
       | None => notFound
       end;
     ServicesList := fun _ ns =>
       (Some (omap (fun home => if decide (home.1 = ns) then Some home.2 else None)
                   homes), None);
     EndpointsIsNil := fun _ _ => false;
     EndpointsGet := fun _ _ _ =>
       (Some {| Subsets := [ {| Addresses := ["10.1.0.7"];
                                NotReadyAddresses := [] |} ] |}, None);
     TypeOfMasterIsOpenShift := fun _ => openShift;
     ProjectsList := fun _ => (Some listed, None);
     NamespacesList := fun _ => (Some listed, None) |}.

(** A load balancer that gives the service an address and takes it
    back: the first lookup sees the ingress, the later ones none. *)
Definition flapping : Env :=
  {| DefaultNamespace := fun _ => "default";
     ServicesGet := fun tr _ _ =>
       match omap serviceGet tr with
       | [] => (Some (balanced [ {| IP := "10.0.0.1"; Hostname := EmptyString |} ]), None)
       | _ => (Some (balanced []), None)
       end;
     ServicesList := fun _ _ => (Some [], None);
     EndpointsIsNil := fun _ _ => false;
     EndpointsGet := fun _ _ _ => (Some {| Subsets := [] |}, None);
     TypeOfMasterIsOpenShift := fun _ => false;
     ProjectsList := fun _ => (Some [], None);
     NamespacesList := fun _ => (Some [], None) |}.

(** An endpoint that becomes ready at the third poll. *)
Definition warmingUp : Env :=
  {| DefaultNamespace := fun _ => "default";
     ServicesGet := fun _ _ _ => (Some (exposed "http://gogs.example"), None);
     ServicesList := fun _ _ => (Some [exposed "http://gogs.example"], None);
     EndpointsIsNil := fun _ _ => false;
     EndpointsGet := fun tr _ _ =>
       match omap endpointGet tr with
       | [] => (Some {| Subsets := [] |}, None)
       | [_] => (Some {| Subsets := [ {| Addresses := [];
                                         NotReadyAddresses := ["10.1.0.7"] |} ] |}, None)
       | _ => (Some {| Subsets := [ {| Addresses := ["10.1.0.7"];
                                       NotReadyAddresses := [] |} ] |}, None)
       end;
     TypeOfMasterIsOpenShift := fun _ => false;
     ProjectsList := fun _ => (Some [], None);
     NamespacesList := fun _ => (Some [], None) |}.

(** A callback that fails until the history has [n] events. *)
Definition upAfter (n : nat) : Cmd error :=
  fun tr => (if (length tr <? n)%nat then Ok (Some "down") else Ok None, []).

End Service.

(** ** The [uninstall] command *)

Module Uninstall.
Import Run.

Record Namespace := { Name : string; Type' : string }.

Definition url : string :=
  "http://f8tenant-fabric8.openshift.chmouel.com/api/tenant/all".

Inductive Event :=
| EvWarn (msg : string)
| EvScanln (confirm : string)
| EvClientConfig (BearerToken : string) (err : error)
| EvNewRequest (method target : string) (err : error)
| EvDo (target authorization : string) (StatusCode : Z) (err : error)
| EvReadAll (body : string) (err : error)
| EvClose
| EvCommand (name : string) (args : list string) (err : error)
| EvCheckErr (msg : string).

Definition Trace := list Event.

(** The terminal, the cluster configuration, the tenant service and the
    commands, as [uninstall] sees them.  By the contracts of [net/http]
    and of the factory, a call that returns no error returns its value:
    only the values [uninstall] reads are kept. *)
Record Env := {
  Scanln : Trace -> string;
  ClientConfig : Trace -> string * error;
  NewRequest : Trace -> string -> string -> error;
  Do : Trace -> string -> string -> Z * error;
  ReadAll : Trace -> string * error;
  runCommand : Trace -> string -> list string -> error
}.

Definition Cmd (A : Type) : Type := M Event A.

(** [fmt.Sprintf("%d", n)]. *)
Definition decimal (n : Z) : string := NilZero.string_of_int (Z.to_int n).

Section Code.

Variable env : Env.

(** [json.Unmarshal(body, &alltenants)] followed by
    [alltenants.Namespaces]: what the body decodes to, nothing when it
    does not decode (the error of [Unmarshal] is dropped). *)
Variable Unmarshal : string -> list Namespace.

Local Open Scope run_scope.

(** [cmdutil.CheckErr]: nothing on [nil], otherwise the error is
    reported and the process exits with status 1. *)
Definition CheckErr (err : error) : Cmd unit :=
  match err with
  | Some msg => exec emit (EvCheckErr msg) ; halt (Exit 1)
  | None => ret tt
  end.

Definition utilWarn (msg : string) : Cmd unit := emit (EvWarn msg).

Definition deleteTenant (confirm : bool) (value : Namespace) : list string :=
  let commands := ["delete"; "tenant"; "-t"; Name value; "--as=system:admin"] in
  if confirm then commands ++ ["-y"] else commands.

(** The loop of [uninstall] over [alltenants.Namespaces]. *)
Fixpoint deleteLoop (confirm : bool) (namespaces : list Namespace) : Cmd unit :=
  match namespaces with
  | [] => ret tt
  | value :: rest =>
      exec (if String.eqb (Type' value) "user" then
              let commands := deleteTenant confirm value in
              do err <- call (fun tr => runCommand env tr "gofabric8" commands)
                             (EvCommand "gofabric8" commands) ;
              CheckErr err
            else ret tt) ;
      deleteLoop confirm rest
  end.

Definition failedToGet (StatusCode : Z) (body : string) : string :=
  "Failed to GET all tenants from init-tenant service on " +:+ url
  +:+ " got status code to: " +:+ decimal StatusCode
  +:+ " output: " +:+ body.

(** [uninstall] from [f.ClientConfig()] on; the deferred
    [res.Body.Close()] runs when the function returns. *)
Definition deleteTenants (confirm : bool) : Cmd error :=
  do '(BearerToken, err) <- call (ClientConfig env)
                                 (fun r => EvClientConfig r.1 r.2) ;
  exec CheckErr err ;
  do err <- call (fun tr => NewRequest env tr "GET" url) (EvNewRequest "GET" url) ;
  exec CheckErr err ;
  let authorization := "Bearer " +:+ BearerToken in
  do '(StatusCode, err) <- call (fun tr => Do env tr url authorization)
                                (fun r => EvDo url authorization r.1 r.2) ;
  exec CheckErr err ;
  do '(body, err) <- call (ReadAll env) (fun r => EvReadAll r.1 r.2) ;
  exec CheckErr err ;
  exec (if (300 <=? StatusCode)%Z
        then CheckErr (Some (failedToGet StatusCode body))
        else ret tt) ;
  exec deleteLoop confirm (Unmarshal body) ;
  exec emit EvClose ;
  ret None.

Definition uninstall (confirm : bool) : Cmd error :=
  if negb confirm then
    exec utilWarn ("WARNING this command will delete all resources from *ALL TENANTS*" +:+ nl) ;
    exec utilWarn (nl +:+ "Continue [y/N]: ") ;
    do answer <- call (Scanln env) EvScanln ;
    if negb (String.eqb answer "y") then
      exec utilWarn ("Aborted" +:+ nl) ;
      ret None
    else deleteTenants confirm
  else deleteTenants confirm.

End Code.

(** *** Reading a run *)

Definition command (ev : Event) : option (list string) :=
  match ev with
  | EvCommand _ args _ => Some args
  | _ => None
  end.

Definition failedCommand (ev : Event) : option (list string) :=
  match ev with
  | EvCommand _ args (Some _) => Some args
  | _ => None
  end.

Definition bodyRead (ev : Event) : option string :=
  match ev with
  | EvReadAll body None => Some body
  | _ => None
  end.

Definition answer (ev : Event) : option string :=
  match ev with
  | EvScanln confirm => Some confirm
  | _ => None
  end.

(** The commands [uninstall] has to run for the tenants it was told. *)
Definition plan (confirm : bool) (namespaces : list Namespace)
  : list (list string) :=
  map (deleteTenant confirm)
      (filter (fun value => Type' value = "user") namespaces).

(** *** A scripted tenant service *)

Definition tenants : list Namespace :=
  [ {| Name := "alice"; Type' := "user" |};
    {| Name := "alice-che"; Type' := "che" |};
    {| Name := "bob"; Type' := "user" |};
    {| Name := "carol"; Type' := "user" |} ].

(** A stand-in for the decoder: whatever the body, these tenants. *)
Definition decoded (body : string) : list Namespace := tenants.

(** The user types [typed] at the prompt, and the deletion of the
    tenants in [failing] fails. *)
Definition served (typed : string) (failing : list string) : Env :=
  {| Scanln := fun _ => typed;
     ClientConfig := fun _ => ("t0ken", None);
     NewRequest := fun _ _ _ => None;
     Do := fun _ _ _ => (200%Z, None);
     ReadAll := fun _ => ("{...}", None);
     runCommand := fun _ _ args =>
       if bool_decide (Exists (fun name => name ∈ args) failing)
       then Some "exit status 1" else None |}.

End Uninstall.

(** ** Properties of the sanitization *)

Section Sanitize.

Implicit Types (text : string) (lines pre block post out : list string).
Implicit Types (st : scanState).

Lemma string_of_byte_space (c : ascii) :
  String.eqb (string_of_byte c) " " = true <-> c = " "%char.
Proof.
  split.
  - destruct c as [[] [] [] [] [] [] [] []]; vm_compute; congruence.
  - intros ->. reflexivity.
Qed.

Lemma scanLoop_app lines1 lines2 st :
  scanLoop (lines1 ++ lines2) st =
  match scanLoop lines1 st with
  | None => None
  | Some st' => scanLoop lines2 st'
  end.
Proof.
  revert st. induction lines1 as [|text lines1 IH]; intros st; simpl.
  - reflexivity.
  - destruct (scanStep st text); [apply IH | reflexivity].
Qed.

Lemma scanStep_stop st text :
  stopLine text = true -> scanStep st text = Some st.
Proof. unfold scanStep. intros ->. reflexivity. Qed.

Lemma stopLine_status : stopLine "status:" = false.
Proof. reflexivity. Qed.

Lemma scanStep_status st :
  scanStep st "status:" = Some (ScanState true (outputYAML st)).
Proof. reflexivity. Qed.

Lemma scanStep_plain acc text :
  stopLine text = false -> text <> "status:" ->
  scanStep (ScanState false acc) text = Some (ScanState false (acc ++ [text])).
Proof.
  intros Hs Hn. unfold scanStep. rewrite Hs.
  apply String.eqb_neq in Hn. rewrite Hn. reflexivity.
Qed.

Lemma scanStep_indented acc text :
  startsWithSpace text ->
  scanStep (ScanState true acc) text = Some (ScanState true acc).
Proof.
  intros [rest ->]. unfold scanStep.
  destruct (stopLine _); [reflexivity|].
  reflexivity.
Qed.

Lemma scanStep_closing acc text :
  text <> EmptyString -> ~ startsWithSpace text -> stopLine text = false ->
  text <> "status:" ->
  scanStep (ScanState true acc) text = Some (ScanState false (acc ++ [text])).
Proof.
  intros Hne Hsp Hs Hn. unfold scanStep. rewrite Hs.
  apply String.eqb_neq in Hn. rewrite Hn. simpl.
  destruct text as [|c rest]; [congruence|]. simpl.
  destruct (String.eqb (string_of_byte c) " ") eqn:E; [|reflexivity].
  apply string_of_byte_space in E. subst c.
  exfalso. apply Hsp. by exists rest.
Qed.

Lemma scanStep_empty acc : scanStep (ScanState true acc) EmptyString = None.
Proof. reflexivity. Qed.

(** Every iteration keeps the lines written so far and adds at most the
    current line, which is then neither filtered by prefix nor the
    opening of a status block. *)
Lemma scanStep_output st text st' :
  scanStep st text = Some st' ->
  outputYAML st' = outputYAML st
  \/ (outputYAML st' = outputYAML st ++ [text]
      /\ stopLine text = false /\ text <> "status:").
Proof.
  unfold scanStep. destruct (stopLine text) eqn:Hs.
  { intros [= <-]. by left. }
  destruct (String.eqb text "status:") eqn:Hn.
  { intros [= <-]. by left. }
  apply String.eqb_neq in Hn.
  destruct (inStatus st).
  - destruct (index text 0) as [c|]; [|discriminate].
    destruct (negb _); intros [= <-]; [right | left]; done.
  - intros [= <-]. right. done.
Qed.

Lemma scanLoop_output lines st st' :
  scanLoop lines st = Some st' ->
  exists kept,
    outputYAML st' = outputYAML st ++ kept
    /\ sublist kept lines
    /\ Forall (fun t => stopLine t = false /\ t <> "status:") kept.
Proof.
  revert st. induction lines as [|text lines IH]; intros st; simpl.
  - intros [= <-]. exists []. rewrite app_nil_r. by repeat constructor.
  - destruct (scanStep st text) as [st1|] eqn:E; [|discriminate].
    intros H. apply IH in H as (kept & Hout & Hsub & Hall).
    apply scanStep_output in E as [E|(E & Hs & Hn)]; rewrite E in Hout.
    + exists kept. split_and!; [done | by apply sublist_cons | done].
    + exists (text :: kept). rewrite <- app_assoc in Hout.
      split_and!; [done | by apply sublist_skip | by constructor].
Qed.

Lemma scanLoop_plain lines acc :
  Forall (fun t => t <> "status:") lines ->
  scanLoop lines (ScanState false acc) =
  Some (ScanState false (acc ++ filter (fun t => stopLine t = false) lines)).
Proof.
  intros H. revert acc. induction H as [|text lines Hn _ IH]; intros acc; simpl.
  - by rewrite app_nil_r.
  - destruct (stopLine text) eqn:Hs.
    + rewrite scanStep_stop by done. rewrite IH.
      rewrite filter_cons_False; [done | by rewrite Hs].
    + rewrite scanStep_plain by done. rewrite IH.
      rewrite filter_cons_True by done. by rewrite <- app_assoc.
Qed.

Lemma scanLoop_block block acc :
  Forall startsWithSpace block ->
  scanLoop block (ScanState true acc) = Some (ScanState true acc).
Proof.
  induction 1 as [|text block Hsp _ IH]; simpl; [done|].
  by rewrite scanStep_indented.
Qed.

Lemma fold_stop (f : string -> bool) (ls : list string) (b : bool) :
  fold_left (fun stop l => if f l then true else stop) ls b = b || existsb f ls.
Proof.
  revert b. induction ls as [|l ls IH]; intros b; simpl.
  - by rewrite orb_false_r.
  - rewrite IH. destruct b, (f l); done.
Qed.

(** [stop] is set exactly when the trimmed line starts with one of the
    prefixes of [removedExportedLine]. *)
Lemma stopLine_iff text :
  stopLine text = true <->
  exists l, l ∈ removedExportedLine /\ HasPrefix (TrimSpace text) l = true.
Proof.
  unfold stopLine. rewrite fold_stop, orb_false_l, existsb_exists.
  by setoid_rewrite list_elem_of_In.
Qed.

Lemma filter_all lines :
  Forall (fun t => stopLine t = false) lines ->
  filter (fun t => stopLine t = false) lines = lines.
Proof.
  induction 1 as [|text lines Hs _ IH]; [done|].
  by rewrite filter_cons_True, IH.
Qed.

Lemma sanitize_output lines out :
  sanitize lines = Some out ->
  sublist out lines
  /\ Forall (fun t => stopLine t = false /\ t <> "status:") out.
Proof.
  unfold sanitize. destruct (scanLoop lines _) as [st|] eqn:E; [|done].
  intros [= <-]. apply scanLoop_output in E as (kept & -> & ? & ?). done.
Qed.

(** C4: a line whose trimmed content starts with one of the exclusion
    prefixes is removed, and only that line: the result is the result
    of sanitizing the manifest without it, so no other line is kept or
    dropped on its account. *)
Theorem stop_line_removed pre text post :
  (exists l, l ∈ removedExportedLine /\ HasPrefix (TrimSpace text) l = true) ->
  sanitize (pre ++ text :: post) = sanitize (pre ++ post)
  /\ forall out, sanitize (pre ++ text :: post) = Some out -> text ∉ out.
Proof.
  intros Hstop%stopLine_iff. split.
  - unfold sanitize. rewrite !scanLoop_app.
    destruct (scanLoop pre _) as [st|]; [|done].
    simpl. by rewrite scanStep_stop.
  - intros out [_ Hall]%sanitize_output Hin.
    rewrite Forall_forall in Hall. apply Hall in Hin as [Hs _]. congruence.
Qed.

(** C5: sanitizing a sanitized manifest changes nothing. *)
Theorem sanitize_idempotent lines out :
  sanitize lines = Some out -> sanitize out = Some out.
Proof.
  intros [_ Hall]%sanitize_output. unfold sanitize.
  rewrite scanLoop_plain by (eapply Forall_impl; [exact Hall | by intros ? []]).
  simpl. f_equal. apply filter_all.
  eapply Forall_impl; [exact Hall | by intros ? []].
Qed.

(** C9: the sanitized manifest is a subsequence of the input: every
    line of the output is a line of the input, and the lines keep their
    order. *)
Theorem sanitize_subsequence lines out :
  sanitize lines = Some out ->
  sublist out lines /\ forall text, text ∈ out -> text ∈ lines.
Proof.
  intros [Hsub _]%sanitize_output. split; [done|].
  intros text Hin. by eapply elem_of_sublist.
Qed.

(** C10: inside a status block the first byte of the line is read
    without a check of its length: an empty line there is read out of
    range and the sanitization has no result. *)
Theorem empty_line_in_status_block_panics pre block post :
  Forall startsWithSpace block ->
  sanitize (pre ++ "status:" :: block ++ EmptyString :: post) = None.
Proof.
  intros Hblock. unfold sanitize. rewrite scanLoop_app.
  destruct (scanLoop pre _) as [st|]; [|done].
  simpl. rewrite scanLoop_app, scanLoop_block by done. done.
Qed.

(** C1 (amended): a status block of lines indented with a space, closed
    by the end of the manifest or by a line with a first byte other than
    a space that the prefix filter keeps, is removed together with its
    [status:] line; of the lines before and after it, when none of them
    is another [status:] line, exactly those that the prefix filter keeps
    are preserved, verbatim and in order. *)
Theorem status_block_removed pre block post :
  Forall (fun t => t <> "status:") (pre ++ post) ->
  Forall startsWithSpace block ->
  closesBlock post ->
  sanitize (pre ++ "status:" :: block ++ post)
  = Some (filter (fun t => stopLine t = false) (pre ++ post))
  /\ (Forall (fun t => stopLine t = false) (pre ++ post) ->
      sanitize (pre ++ "status:" :: block ++ post) = Some (pre ++ post)).
Proof.
  intros [Hpre Hpost]%Forall_app Hblock Hclose.
  assert (sanitize (pre ++ "status:" :: block ++ post)
          = Some (filter (fun t => stopLine t = false) (pre ++ post))) as Heq.
  { unfold sanitize. rewrite scanLoop_app, scanLoop_plain by done.
    simpl. rewrite scanLoop_app, scanLoop_block by done.
    rewrite filter_app. destruct post as [|text post]; simpl.
    - by rewrite filter_nil, app_nil_r.
    - destruct Hclose as (Hne & Hsp & Hs).
      apply Forall_cons in Hpost as [Hn Hpost].
      rewrite scanStep_closing, scanLoop_plain by done.
      simpl. rewrite filter_cons_True by done.
      by rewrite <- app_assoc. }
  split; [done|]. intros Hall. by rewrite Heq, filter_all.
Qed.

(** *** More on the sanitization *)

Lemma scanStep_None st text :
  scanStep st text = None -> text = EmptyString /\ inStatus st = true.
Proof.
  unfold scanStep. destruct (stopLine text); [done|].
  destruct (String.eqb text "status:"); [done|].
  destruct (inStatus st); [|done].
  destruct text as [|c rest]; simpl; [done|].
  by destruct (negb _).
Qed.

Lemma scanStep_enters st text st' :
  scanStep st text = Some st' -> inStatus st' = true ->
  inStatus st = true \/ text = "status:".
Proof.
  unfold scanStep. destruct (stopLine text).
  { intros [= <-] ?. by left. }
  destruct (String.eqb_spec text "status:") as [->|_].
  { by right. }
  destruct (inStatus st) eqn:E; [by left|].
  by intros [= <-] ?.
Qed.

Lemma scanLoop_None lines st :
  scanLoop lines st = None ->
  exists pre post,
    lines = pre ++ EmptyString :: post
    /\ (inStatus st = true \/ "status:" ∈ pre).
Proof.
  revert st. induction lines as [|text lines IH]; intros st; simpl; [done|].
  destruct (scanStep st text) as [st'|] eqn:E.
  - intros (pre & post & -> & Hin)%IH. exists (text :: pre), post.
    split; [done|]. destruct Hin as [Hin|Hin].
    + destruct (scanStep_enters _ _ _ E Hin) as [?| ->]; [by left|].
      right. apply list_elem_of_here.
    + right. by apply list_elem_of_further.
  - intros _. apply scanStep_None in E as [-> ?].
    exists [], lines. split; [done | by left].
Qed.

(** X7: no line of a sanitized manifest is a [status:] line or has,
    once trimmed, one of the exclusion prefixes. *)
Theorem sanitized_is_clean lines out :
  sanitize lines = Some out ->
  Forall (fun text =>
            text <> "status:"
            /\ forall l, l ∈ removedExportedLine ->
                         HasPrefix (TrimSpace text) l = false) out.
Proof.
  intros [_ Hall]%sanitize_output. eapply Forall_impl; [exact Hall|].
  intros text [Hs Hn]. split; [done|]. intros l Hl.
  destruct (HasPrefix (TrimSpace text) l) eqn:E; [|done].
  assert (stopLine text = true) by (apply stopLine_iff; eauto). congruence.
Qed.

(** X8: the sanitization fails only on an empty line that comes after a
    [status:] line; a manifest without empty line, or without [status:]
    line, is always sanitized. *)
Theorem sanitize_fails_only_in_status_block lines :
  sanitize lines = None ->
  exists pre post,
    lines = pre ++ EmptyString :: post /\ "status:" ∈ pre.
Proof.
  unfold sanitize. destruct (scanLoop lines _) eqn:E; [done|]. intros _.
  apply scanLoop_None in E as (pre & post & -> & [?|?]); [done|].
  by exists pre, post.
Qed.

(** X9: on a manifest without [status:] line the sanitization is the
    filter of the exclusion prefixes: it keeps, in order, exactly the
    lines that no prefix excludes. *)
Theorem sanitize_without_status lines :
  "status:" ∉ lines ->
  sanitize lines = Some (filter (fun text => stopLine text = false) lines).
Proof.
  intros Hnot. unfold sanitize. rewrite scanLoop_plain; [done|].
  apply Forall_forall. intros text Hin ->. done.
Qed.

(** *** The file of [writeLines] and the line scanner *)

Lemma list_ascii_of_string_app (s1 s2 : string) :
  list_ascii_of_string (s1 +:+ s2)
  = list_ascii_of_string s1 ++ list_ascii_of_string s2.
Proof. induction s1 as [|c s1 IH]; simpl; [done | by rewrite IH]. Qed.

Lemma append_empty_r (s : string) : s +:+ EmptyString = s.
Proof.
  induction s as [|c s IH]; [done|].
  change (String c (s +:+ EmptyString) = String c s). by rewrite IH.
Qed.

Lemma fileContent_cons line lines :
  fileContent (line :: lines) = (line +:+ nl) +:+ fileContent lines.
Proof.
  unfold fileContent. simpl. destruct lines as [|line' lines]; simpl.
  - by rewrite append_empty_r.
  - done.
Qed.

Lemma scanFrom_line (bytes rest cur : list ascii) (n : N) :
  Forall (fun c => byte_val c <> 10) bytes ->
  (n + N.of_nat (length bytes) < MaxScanTokenSize)%N ->
  scanFrom (bytes ++ ascii_of_nat 10 :: rest) cur n
  = token (rev bytes ++ cur) :: scanFrom rest [] 0%N.
Proof.
  revert cur n. induction bytes as [|c bytes IH]; intros cur n Hall Hlen.
  - simpl in *. replace (n <? MaxScanTokenSize)%N with true; [done|].
    symmetry. apply N.ltb_lt. lia.
  - apply Forall_cons in Hall as [Hc Hall]. simpl.
    apply Nat.eqb_neq in Hc. rewrite Hc.
    rewrite IH; [| done | simpl in Hlen; lia].
    by rewrite <- app_assoc.
Qed.

Lemma token_line (bytes : list ascii) :
  last bytes <> Some (ascii_of_nat 13) ->
  token (rev bytes ++ []) = string_of_list_ascii bytes.
Proof.
  intros Hlast. unfold token. rewrite app_nil_r.
  assert (dropCR (rev bytes) = rev bytes) as ->.
  { destruct (rev bytes) as [|c r] eqn:E; [done|]. simpl.
    destruct (Nat.eqb_spec (byte_val c) 13) as [Hc|]; [|done].
    exfalso. apply Hlast.
    assert (bytes = rev r ++ [c]) as ->
      by (by rewrite <- (rev_involutive bytes), E).
    rewrite last_snoc. f_equal.
    rewrite <- (ascii_nat_embedding c). unfold byte_val in Hc. by rewrite Hc. }
  by rewrite rev_involutive.
Qed.

(** X10: the line scanner gives back the lines that [writeLines] put in
    a file, when no line holds a newline or ends with a carriage return
    and every line fits the buffer of the scanner. *)
Theorem scanLines_fileContent lines :
  Forall scannable lines -> scanLines (fileContent lines) = lines.
Proof.
  unfold scanLines. induction 1 as [|line lines (Hnl & Hcr & Hlen) _ IH].
  - reflexivity.
  - rewrite fileContent_cons, !list_ascii_of_string_app. simpl.
    rewrite <- app_assoc. simpl.
    rewrite scanFrom_line; [| done |].
    + rewrite IH, token_line by done.
      by rewrite string_of_list_ascii_of_string.
    + assert (length (list_ascii_of_string line) = String.length line) as ->.
      { clear. induction line as [|c line IH]; simpl; [done | by rewrite IH]. }
      lia.
Qed.

End Sanitize.

Section WorkflowProps.

Variable env : Env.

Lemma fold_left_snoc (sp acc : list string) :
  fold_left (fun attachedpods v => attachedpods ++ [v]) sp acc = acc ++ sp.
Proof.
  revert acc. induction sp as [|v sp IH]; intros acc; simpl.
  - by rewrite app_nil_r.
  - rewrite IH. by rewrite <- app_assoc.
Qed.

(** *** Inversion of the steps of a run *)

Lemma bind_inv {A B} (m : M A) (f : A -> M B) tr res evs :
  bind m f tr = (res, evs) ->
  (exists h, m tr = (Stop h, evs) /\ res = Stop h)
  \/ (exists a evs1 evs2,
        m tr = (Ok a, evs1) /\ f a (tr ++ evs1) = (res, evs2)
        /\ evs = evs1 ++ evs2).
Proof.
  unfold bind. destruct (m tr) as [[a|h] evs1].
  - destruct (f a (tr ++ evs1)) as [r evs2] eqn:E. intros [= <- <-].
    right. by exists a, evs1, evs2.
  - intros [= <- <-]. left. by exists h.
Qed.

Lemma call_inv {A} (answer : Trace -> A) (ev : A -> Event) tr res evs :
  call answer ev tr = (res, evs) ->
  exists a, res = Ok a /\ evs = [ev a].
Proof. unfold call. intros [= <- <-]. by eexists. Qed.

Lemma ret_inv {A} (a : A) tr res evs :
  ret a tr = (res, evs) -> res = Ok a /\ evs = [].
Proof. by intros [= <- <-]. Qed.

Lemma halt_inv {A} h tr (res : Result A) evs :
  halt h tr = (res, evs) -> res = Stop h /\ evs = [].
Proof. by intros [= <- <-]. Qed.

Lemma emit_inv ev tr res evs :
  emit ev tr = (res, evs) -> res = Ok tt /\ evs = [ev].
Proof. by intros [= <- <-]. Qed.

Lemma utilSuccess_inv msg tr res evs :
  utilSuccess msg tr = (res, evs) -> res = Ok tt /\ evs = [EvPrint LSuccess msg].
Proof. by intros [= <- <-]. Qed.

Lemma CheckErr_inv err tr res evs :
  CheckErr err tr = (res, evs) ->
  evs = []
  /\ ((err = None /\ res = Ok tt)
      \/ (exists msg, err = Some msg /\ res = Stop (CheckErrExit msg))).
Proof.
  destruct err as [msg|]; intros [= <- <-]; split; eauto.
Qed.

Lemma fatalOnError_inv cmd output err tr res evs :
  fatalOnError cmd output err tr = (res, evs) ->
  evs = []
  /\ ((err = None /\ res = Ok tt)
      \/ (exists e, err = Some e
                    /\ res = Stop (Fatal (fatalMessage cmd e output)))).
Proof.
  destruct err as [e|]; intros [= <- <-]; split; eauto.
Qed.

Lemma kubectl_inv cmd tr res evs :
  kubectl env cmd tr = (res, evs) ->
  exists output err,
    res = Ok (output, err) /\ evs = [EvCommand "kubectl" cmd output err].
Proof.
  unfold kubectl. intros ([output err] & -> & ->)%call_inv.
  by exists output, err.
Qed.

Lemma findPodsAttachedtoPVC_inv findVolume ns tr res evs :
  findPodsAttachedtoPVC env findVolume ns tr = (res, evs) ->
  exists pods err,
    evs = [EvListPods ns pods err]
    /\ res = Ok (match err, pods with
                 | None, Some items => attachedNames findVolume items
                 | _, _ => []
                 end, err).
Proof.
  unfold findPodsAttachedtoPVC, bind, call.
  destruct (PodsList env tr ns) as [pods err]. simpl.
  intros H. exists pods, err.
  destruct err as [e|]; [|destruct pods]; simpl in H; by injection H as <- <-.
Qed.

Lemma writeLines_inv lines path tr res evs :
  writeLines env lines path tr = (res, evs) ->
  exists err, res = Ok err /\ commands evs = [] /\ podDeletions evs = []
              /\ messages evs = [] /\ labelLookups evs = []
              /\ Forall (fun ev => commandFailed ev = false) evs.
Proof.
  unfold writeLines, bind, call. destruct (osCreate env tr path) as [e|]; simpl.
  - intros [= <- <-]. exists (Some e). by repeat constructor.
  - intros [= <- <-]. eexists. by repeat constructor.
Qed.

(** Inverting one step of a run kept in hypothesis. *)
Ltac step_inv :=
  match goal with
  | H : bind _ _ _ = (_, _) |- _ =>
      apply bind_inv in H as [(? & H & ->) | (? & ? & ? & ? & H & ->)];
      cbv beta in *
  | H : call _ _ _ = (_, _) |- _ =>
      apply call_inv in H as (? & ? & ?); simplify_eq
  | H : kubectl _ _ _ = (_, _) |- _ =>
      apply kubectl_inv in H as (? & ? & ? & ?); simplify_eq
  | H : CheckErr _ _ = (_, _) |- _ =>
      apply CheckErr_inv in H as [? [[? ?] | (? & ? & ?)]]; simplify_eq
  | H : fatalOnError _ _ _ _ = (_, _) |- _ =>
      apply fatalOnError_inv in H as [? [[? ?] | (? & ? & ?)]]; simplify_eq
  | H : ret _ _ = (_, _) |- _ => apply ret_inv in H as [? ?]; simplify_eq
  | H : halt _ _ = (_, _) |- _ => apply halt_inv in H as [? ?]; simplify_eq
  | H : emit _ _ = (_, _) |- _ => apply emit_inv in H as [? ?]; simplify_eq
  | H : utilSuccess _ _ = (_, _) |- _ =>
      apply utilSuccess_inv in H as [? ?]; simplify_eq
  | H : findPodsAttachedtoPVC _ _ _ _ = (_, _) |- _ =>
      apply findPodsAttachedtoPVC_inv in H as (? & ? & ? & ?); simplify_eq
  | H : writeLines _ _ _ _ = (_, _) |- _ =>
      apply writeLines_inv in H as (? & ? & ? & ? & ? & ? & ?); simplify_eq
  | H : (let (_, _) := ?x in _) _ = (_, _) |- _ =>
      destruct x eqn:?; simpl in H
  | H : match ?x with Some _ => _ | None => _ end _ = (_, _) |- _ =>
      destruct x eqn:?
  | H : (if ?b then _ else _) _ = (_, _) |- _ => destruct b eqn:?
  end.

Lemma expandLoop_run ns pods attachedpods tr res evs :
  expandLoop env ns pods attachedpods tr = (res, evs) ->
  labelLookups evs `prefix_of` pods
  /\ commands evs = [] /\ messages evs = []
  /\ forall final,
      res = Ok final ->
      labelLookups evs = pods
      /\ final = attachedpods ++ concat (serviceAnswers evs).
Proof.
  revert attachedpods tr res evs.
  induction pods as [|pod rest IH]; intros attachedpods tr res evs H; simpl in H.
  - step_inv. split_and!; try done. intros final [= <-].
    by rewrite app_nil_r.
  - repeat step_inv.
    all: try (split_and!; [by apply prefix_cons, prefix_nil | done | done | done]).
    + apply IH in H as (Hp & Hc & Hm & Hf). simpl.
      split_and!; [by apply prefix_cons | done | done |].
      intros final ->. destruct (Hf _ eq_refl) as [-> ->].
      split; [done|]. by rewrite fold_left_snoc, <- app_assoc.
    + apply IH in H as (Hp & Hc & Hm & Hf). simpl.
      split_and!; [by apply prefix_cons | done | done |].
      intros final ->. destruct (Hf _ eq_refl) as [-> ->]. done.
Qed.

Lemma commands_nil_podDeletions evs : commands evs = [] -> podDeletions evs = [].
Proof.
  induction evs as [|ev evs IH]; [done|].
  destruct ev; simpl; try done; apply IH.
Qed.

Lemma commands_nil_failed evs :
  commands evs = [] -> Forall (fun ev => commandFailed ev = false) evs.
Proof.
  induction evs as [|ev evs IH]; [constructor|].
  destruct ev; simpl; try done; intros; constructor; auto.
Qed.

Lemma evictLoop_events userNS volumeName pods tr res evs :
  evictLoop env userNS volumeName pods tr = (res, evs) ->
  Forall (fun ev =>
            (exists pod output err,
                ev = EvCommand "kubectl" ["delete"; "-n"; userNS; "pod"; pod]
                       output err)
            \/ (exists msg, ev = EvPrint LSuccess msg)) evs.
Proof.
  revert tr res evs.
  induction pods as [|pod rest IH]; intros tr res evs H; simpl in H.
  - step_inv. constructor.
  - repeat step_inv; simpl.
    all: repeat (constructor; eauto).
Qed.

Lemma evictLoop_run userNS volumeName pods tr res evs :
  evictLoop env userNS volumeName pods tr = (res, evs) ->
  (res = Ok tt /\ podDeletions evs = pods
   /\ Forall (fun ev => commandFailed ev = false) evs)
  \/ (exists done pod rest output e evs0,
        pods = done ++ pod :: rest
        /\ res = Stop (Fatal (fatalMessage
                                ["delete"; "-n"; userNS; "pod"; pod] e output))
        /\ evs = evs0 ++ [EvCommand "kubectl"
                             ["delete"; "-n"; userNS; "pod"; pod]
                             output (Some e)]
        /\ podDeletions evs0 = done
        /\ Forall (fun ev => commandFailed ev = false) evs0).
Proof.
  revert tr res evs.
  induction pods as [|pod rest IH]; intros tr res evs H; simpl in H.
  - step_inv. left. by repeat constructor.
  - repeat step_inv.
    + right. exists [], pod, rest. eexists _, _, []. by repeat constructor.
    + apply IH in H as [(-> & Hd & Hf) | (done & pod' & rest' & output & e & evs0
                                          & -> & -> & -> & Hd & Hf)].
      * left. simpl. rewrite Hd. by repeat constructor.
      * right. exists (pod :: done), pod', rest', output, e.
        eexists (_ :: _ :: evs0). simpl. rewrite Hd.
        split_and!; try done. by repeat constructor.
Qed.

(** The messages of [util.Fatal], written out for the commands of the
    workflow. *)
Lemma append_assoc_r (s1 s2 s3 : string) :
  (s1 +:+ s2) +:+ s3 = s1 +:+ s2 +:+ s3.
Proof.
  induction s1 as [|c s1 IH]; [done|].
  change (String c ((s1 +:+ s2) +:+ s3) = String c (s1 +:+ s2 +:+ s3)).
  by rewrite IH.
Qed.

Lemma create_message ns tmp e output :
  fatalMessage ["create"; "-n"; ns; "-f"; tmp] e output
  = "Error while running cmd: create -n " +:+ ns +:+ " -f " +:+ tmp
    +:+ " Error: " +:+ e +:+ " Output: " +:+ output +:+ nl.
Proof.
  unfold fatalMessage, Join. cbn [String.concat].
  rewrite !append_assoc_r. reflexivity.
Qed.

Lemma delete_pod_message ns pod e output :
  fatalMessage ["delete"; "-n"; ns; "pod"; pod] e output
  = "Error while running cmd: delete -n " +:+ ns +:+ " pod " +:+ pod
    +:+ " Error: " +:+ e +:+ " Output: " +:+ output +:+ nl.
Proof.
  unfold fatalMessage, Join. cbn [String.concat].
  rewrite !append_assoc_r. reflexivity.
Qed.

Lemma create_not_delete ns tmp e output ns' claim e' output' :
  "Error while running cmd: create -n " +:+ ns +:+ " -f " +:+ tmp
    +:+ " Error: " +:+ e +:+ " Output: " +:+ output +:+ nl
  <> "Error while running cmd: delete -n " +:+ ns' +:+ " pvc " +:+ claim
     +:+ " Error: " +:+ e' +:+ " Output: " +:+ output' +:+ nl.
Proof.
  intros Heq. apply (f_equal (String.get 25)) in Heq.
  cbv in Heq. discriminate Heq.
Qed.

Lemma commands_nil_elem evs name args output err :
  commands evs = [] -> EvCommand name args output err ∈ evs -> False.
Proof.
  induction evs as [|ev evs IH]; [by intros _ ?%elem_of_nil|].
  intros Hc [<-|Hin]%elem_of_cons; [done|].
  destruct ev; simpl in Hc; try done; by apply IH.
Qed.

Lemma evict_events_create userNS evs name args output err :
  Forall (fun ev =>
            (exists pod output err,
                ev = EvCommand "kubectl" ["delete"; "-n"; userNS; "pod"; pod]
                       output err)
            \/ (exists msg, ev = EvPrint LSuccess msg)) evs ->
  EvCommand name ("create" :: args) output err ∈ evs -> False.
Proof.
  rewrite Forall_forall. intros H Hin.
  apply H in Hin as [(? & ? & ? & ?) | (? & ?)]; simplify_eq.
Qed.

Lemma podDeletions_app evs1 evs2 :
  podDeletions (evs1 ++ evs2) = podDeletions evs1 ++ podDeletions evs2.
Proof. apply omap_app. Qed.

Lemma podDeletions_skip ev evs :
  podDeletion ev = None -> podDeletions (ev :: evs) = podDeletions evs.
Proof. unfold podDeletions. simpl. by intros ->. Qed.

Lemma create_failure_run (p : erasePVCFlags) res evs ns tmp output e :
  erasePVC env p [] = (res, evs) ->
  EvCommand "kubectl" ["create"; "-n"; ns; "-f"; tmp] output (Some e) ∈ evs ->
  res = Stop (Fatal (fatalMessage ["create"; "-n"; ns; "-f"; tmp] e output))
  /\ podDeletions evs = []
  /\ last evs = Some (EvCommand "kubectl" ["create"; "-n"; ns; "-f"; tmp]
                        output (Some e))
  /\ exists output',
      EvCommand "kubectl" ["delete"; "-n"; ns; "pvc"; volumeName p] output' None
        ∈ evs.
Proof.
  intros H Hin. unfold erasePVC in H.
  repeat step_inv.
  all: repeat match goal with
    | H : expandLoop _ _ _ _ _ = _ |- _ =>
        apply expandLoop_run in H as (_ & ? & _ & _)
    | H : evictLoop _ _ _ _ _ = _ |- _ =>
        apply evictLoop_events in H
    end.
  all: simpl in *.
  all: repeat (progress rewrite ?elem_of_app, ?elem_of_cons, ?elem_of_nil in Hin).
  all: try (exfalso; destruct_or!; simplify_eq;
            eauto using commands_nil_elem, evict_events_create; fail).
  destruct_or!; simplify_eq; try (exfalso; eauto using commands_nil_elem; fail).
  split_and!.
  - done.
  - repeat (rewrite podDeletions_app
            || rewrite podDeletions_skip by reflexivity).
    repeat match goal with
      | H : commands ?l = [] |- _ =>
          rewrite (commands_nil_podDeletions l H); clear H
      end.
    done.
  - repeat (rewrite last_cons || rewrite last_app). reflexivity.
  - eexists. repeat (rewrite elem_of_cons || rewrite elem_of_app).
    repeat ((left; reflexivity) || right).
Qed.

(** C3: when the creation of the claim fails, after its deletion
    succeeded, the run halts with the fatal error of the create command:
    the message, written out, names the create command line and
    carries the error and the output of the command; it is not the
    message of a failed deletion of the claim, whatever its error and
    output; and no pod deletion is requested. *)
Theorem create_failure_halts (p : erasePVCFlags) ns tmp output e :
  let out := erasePVC env p [] in
  EvCommand "kubectl" ["create"; "-n"; ns; "-f"; tmp] output (Some e) ∈ out.2 ->
  out.1 = Stop (Fatal ("Error while running cmd: create -n " +:+ ns
                       +:+ " -f " +:+ tmp +:+ " Error: " +:+ e
                       +:+ " Output: " +:+ output +:+ nl))
  /\ (forall e' output',
        out.1 <> Stop (Fatal ("Error while running cmd: delete -n " +:+ ns
                              +:+ " pvc " +:+ volumeName p +:+ " Error: " +:+ e'
                              +:+ " Output: " +:+ output' +:+ nl)))
  /\ podDeletions out.2 = []
  /\ last out.2 = Some (EvCommand "kubectl" ["create"; "-n"; ns; "-f"; tmp]
                          output (Some e))
  /\ exists output',
      EvCommand "kubectl" ["delete"; "-n"; ns; "pvc"; volumeName p] output' None
        ∈ out.2.
Proof.
  destruct (erasePVC env p []) as [res evs] eqn:H. simpl. intros Hin.
  destruct (create_failure_run _ _ _ _ _ _ _ H Hin) as (Hres & Hdel & Hlast & Hpvc).
  rewrite create_message in Hres.
  split_and!; try done.
  intros e' output' Heq. rewrite Hres in Heq.
  apply (create_not_delete ns tmp e output ns (volumeName p) e' output').
  congruence.
Qed.

Lemma omap_cons_None {A B} (f : A -> option B) x l :
  f x = None -> omap f (x :: l) = omap f l.
Proof. simpl. by intros ->. Qed.

Lemma omap_cons_Some {A B} (f : A -> option B) x y l :
  f x = Some y -> omap f (x :: l) = y :: omap f l.
Proof. simpl. by intros ->. Qed.

(** Reading a run whose events are known up to the events of its loops. *)
Ltac read_run :=
  unfold podDeletions, commands, messages, labelLookups in *;
  repeat (rewrite omap_app
          || rewrite omap_cons_None by reflexivity
          || erewrite omap_cons_Some by reflexivity).

(** C8 (amended): when no listed pod declares a volume with the name
    of the claim, no label is read and no pod deletion is requested; a
    run that completes has issued exactly the get, delete and create
    commands of the claim, and the only message it prints is that the
    volume has been recreated: no warning reports the absence of pods. *)
Theorem no_attached_pods_run (p : erasePVCFlags) :
  let out := erasePVC env p [] in
  (forall ns items err,
      EvListPods ns (Some items) err ∈ out.2 ->
      attachedNames (volumeName p) items = []) ->
  labelLookups out.2 = []
  /\ podDeletions out.2 = []
  /\ (forall msg, (LWarn, msg) ∉ messages out.2)
  /\ (forall r,
        out.1 = Ok r ->
        exists ns tmpfile,
          commands out.2 =
            [ ["get"; "-o"; "yaml"; "-n"; ns; "pvc"; volumeName p];
              ["delete"; "-n"; ns; "pvc"; volumeName p];
              ["create"; "-n"; ns; "-f"; tmpfile] ]
          /\ messages out.2 =
               [ (LSuccess,
                  "Volume: " +:+ volumeName p +:+ " has been recreated." +:+ nl) ]).
Proof.
  destruct (erasePVC env p []) as [res evs] eqn:H. simpl. intros Hnone.
  unfold erasePVC in H.
  repeat step_inv.
  all: simpl in *.
  all: try match goal with
    | H : context [match ?x with Some _ => _ | None => _ end] |- _ =>
        let Hnil := fresh in
        assert (match x with
                | Some items => attachedNames (volumeName p) items
                | None => []
                end = []) as Hnil
          by (destruct x as [items|];
              [eapply (Hnone _ items None); do 2 right; left | done]);
        rewrite Hnil in *; clear Hnil
    end.
  all: repeat (simpl in *; step_inv).
  all: read_run; simplify_list_eq.
  all: repeat match goal with
    | H : omap _ ?l = [] |- _ => rewrite ?omap_app, ?H; clear H
    end.
  all: read_run.
  all: split_and!; try done; try (intros ?; apply not_elem_of_nil).
  - intros msg [=]%list_elem_of_singleton.
  - intros r _. by eexists _, _.
Qed.

(** *** The pod discovery *)

Lemma volumes_fold findVolume name (volumes : list Volume) (acc : list string) :
  fold_left
    (fun ret volume =>
       if String.eqb (Name volume) findVolume then ret ++ [name] else ret)
    volumes acc
  = acc ++ replicate
             (length (filter (fun v => Name v = findVolume) volumes)) name.
Proof.
  revert acc. induction volumes as [|v volumes IH]; intros acc; simpl.
  - by rewrite app_nil_r.
  - rewrite IH. destruct (String.eqb_spec (Name v) findVolume) as [Heq|Hne].
    + rewrite filter_cons_True by done. simpl. by rewrite <- app_assoc.
    + by rewrite filter_cons_False.
Qed.

Lemma attachedNames_fold findVolume (items : list Pod) (acc : list string) :
  fold_left
    (fun ret item =>
       fold_left
         (fun ret volume =>
            if String.eqb (Name volume) findVolume
            then ret ++ [GetName item] else ret)
         (Volumes item) ret)
    items acc
  = acc ++ concat
             (map (fun item =>
                     replicate
                       (length (filter (fun v => Name v = findVolume)
                                       (Volumes item)))
                       (GetName item))
                  items).
Proof.
  revert acc. induction items as [|item items IH]; intros acc; simpl.
  - by rewrite app_nil_r.
  - rewrite IH, volumes_fold. by rewrite <- app_assoc.
Qed.





(** X28: what the discovery returns for any answer of the listing.  An
    error of the listing is returned as it is, with no name; a [nil]
    list gives no name; otherwise the pods are taken in the order of the
    listing and the name of a pod is returned once for each of its
    volumes whose name is the name of the claim, the inner loop not
    stopping at the first one. *)
Theorem findPodsAttachedtoPVC_once_per_volume findVolume ns tr :
  let out := findPodsAttachedtoPVC env findVolume ns tr in
  let answer := PodsList env tr ns in
  out.2 = [EvListPods ns answer.1 answer.2]
  /\ out.1
     = Ok (match answer with
           | (Some items, None) =>
               concat
                 (map (fun item =>
                         replicate
                           (length (filter (fun volume => Name volume = findVolume)
                                           (Volumes item)))
                           (GetName item))
                      items)
           | _ => []
           end, answer.2).
Proof.
  cbn zeta. unfold findPodsAttachedtoPVC, bind, call.
  destruct (PodsList env tr ns) as [[items|] [e|]]; [done| |done|done].
  cbn [fst snd]. split; [done|].
  unfold attachedNames. by rewrite attachedNames_fold.
Qed.

(** *** The expansion by service label *)


(** *** The eviction *)

(** C2 (amended): the pods are deleted in order and the loop stops at
    the first deletion that fails: the deletions requested are those of
    the pods up to and including the failing one, the pods after it are
    not attempted, and the run halts with the fatal error of that one
    command, whose message, written out, names its command line, its
    error and its output.  When no deletion fails, every pod is
    deleted. *)
Theorem eviction_stops_at_first_failure userNS volumeName (pods : list string) tr :
  let out := evictLoop env userNS volumeName pods tr in
  podDeletions out.2 `prefix_of` pods
  /\ ((out.1 = Ok tt /\ podDeletions out.2 = pods
       /\ Forall (fun ev => commandFailed ev = false) out.2)
      \/ (exists done pod rest output e evs0,
            pods = done ++ pod :: rest
            /\ out.1 = Stop (Fatal ("Error while running cmd: delete -n "
                                    +:+ userNS +:+ " pod " +:+ pod
                                    +:+ " Error: " +:+ e
                                    +:+ " Output: " +:+ output +:+ nl))
            /\ out.2 = evs0 ++ [EvCommand "kubectl"
                                  ["delete"; "-n"; userNS; "pod"; pod]
                                  output (Some e)]
            /\ podDeletions out.2 = done ++ [pod]
            /\ Forall (fun ev => commandFailed ev = false) evs0)).
Proof.
  destruct (evictLoop env userNS volumeName pods tr) as [res evs] eqn:H. simpl.
  apply evictLoop_run in H
    as [(-> & Hd & Hf) | (done & pod & rest & output & e & evs0
                          & -> & -> & -> & Hd & Hf)].
  - split; [by rewrite Hd | left; done].
  - assert (podDeletions
              (evs0 ++ [EvCommand "kubectl" ["delete"; "-n"; userNS; "pod"; pod]
                          output (Some e)]) = done ++ [pod]) as Hdel
      by (by rewrite podDeletions_app, Hd).
    split.
    + rewrite Hdel. exists rest. by rewrite <- app_assoc.
    + right. exists done, pod, rest, output, e, evs0.
      by rewrite <- delete_pod_message.
Qed.

(** *** More on the loops *)

Lemma omap_nil_Forall {A B} (f : A -> option B) (l : list A) :
  Forall (fun x => f x = None) l -> omap f l = [].
Proof.
  induction 1 as [|x l Hx _ IH]; [done|]. by rewrite omap_cons_None.
Qed.

Lemma expandLoop_shape ns pods attachedpods tr res evs :
  expandLoop env ns pods attachedpods tr = (res, evs) ->
  Forall (fun ev =>
            (exists pod value err, ev = EvLabelValue ns pod "service" value err)
            \/ (exists service sp err, ev = EvServicePods ns service sp err)) evs.
Proof.
  revert attachedpods tr res evs.
  induction pods as [|pod rest IH]; intros attachedpods tr res evs H; simpl in H.
  - step_inv. constructor.
  - repeat step_inv; simpl.
    all: repeat (constructor; eauto 10).
Qed.

(** What the events of the expansion are not. *)
Lemma expandLoop_reads ns pods attachedpods tr res evs findVolume :
  expandLoop env ns pods attachedpods tr = (res, evs) ->
  omap (listing findVolume) evs = [] /\ omap removal evs = []
  /\ omap podDeleted evs = [] /\ omap detection evs = []
  /\ omap tempFile evs = [] /\ omap written evs = []
  /\ omap exported evs = [] /\ omap defaultNamespace evs = []
  /\ omap listingNamespace evs = []
  /\ Forall (fun ns' => ns' = ns) (omap lookupNamespace evs)
  /\ Forall (fun ev => commandFailed ev = false) evs.
Proof.
  intros H%expandLoop_shape. split_and!.
  1-9: apply omap_nil_Forall; eapply Forall_impl; [exact H|];
       by intros ev [(? & ? & ? & ->) | (? & ? & ? & ->)].
  { induction H as [|ev evs Hev _ IH]; [constructor|].
    destruct Hev as [(? & ? & ? & ->) | (? & ? & ? & ->)]; simpl;
      by constructor. }
  eapply Forall_impl; [exact H|].
  by intros ev [(? & ? & ? & ->) | (? & ? & ? & ->)].
Qed.

(** X12: the services looked up are the non-empty values of the labels
    read, in order: an empty [service] label triggers no lookup. *)
Theorem expansion_service_lookups ns (pods attachedpods : list string) tr :
  let out := expandLoop env ns pods attachedpods tr in
  omap serviceLookup out.2
  = filter (fun value => value <> EmptyString) (omap labelValue out.2).
Proof.
  destruct (expandLoop env ns pods attachedpods tr) as [res evs] eqn:H. simpl.
  revert attachedpods tr res evs H.
  induction pods as [|pod rest IH]; intros attachedpods tr res evs H; simpl in H.
  - by step_inv.
  - repeat step_inv; cbn [fst snd] in *; read_run;
      rewrite ?app_nil_r; simpl app; try done.
    all: try (apply IH in H; rewrite H).
    all: try apply negb_true_iff, String.eqb_neq in Heqb.
    all: try apply negb_false_iff, String.eqb_eq in Heqb.
    + change (omap labelValue [EvLabelValue ns pod "service" s None]) with [s].
      by rewrite filter_cons_True.
    + by rewrite filter_cons_True.
    + by rewrite filter_cons_False by (by intros []).
Qed.

Lemma evictLoop_reads userNS volumeName pods tr res evs findVolume :
  evictLoop env userNS volumeName pods tr = (res, evs) ->
  omap (listing findVolume) evs = [] /\ omap removal evs = []
  /\ serviceAnswers evs = [] /\ labelLookups evs = []
  /\ omap detection evs = [] /\ omap tempFile evs = []
  /\ omap written evs = [] /\ omap exported evs = []
  /\ omap defaultNamespace evs = [] /\ omap listingNamespace evs = []
  /\ omap lookupNamespace evs = []
  /\ commands evs
     = map (fun pod => ["delete"; "-n"; userNS; "pod"; pod]) (podDeletions evs).
Proof.
  intros H%evictLoop_events. split_and!.
  1-11: apply omap_nil_Forall; eapply Forall_impl; [exact H|];
        by intros ev [(? & ? & [?|] & ->) | (? & ->)].
  induction H as [|ev evs Hev _ IH]; [done|].
  destruct Hev as [(pod & output & err & ->) | (msg & ->)].
  - unfold commands, podDeletions in *. simpl. f_equal. exact IH.
  - unfold commands, podDeletions in *. simpl. exact IH.
Qed.

Lemma evictLoop_messages userNS volumeName pods tr res evs :
  evictLoop env userNS volumeName pods tr = (res, evs) ->
  messages evs = map (deletedMessage volumeName) (omap podDeleted evs)
  /\ (res = Ok tt -> omap podDeleted evs = pods)
  /\ (forall h, res = Stop h ->
        exists pod, podDeletions evs = omap podDeleted evs ++ [pod]).
Proof.
  revert tr res evs.
  induction pods as [|pod rest IH]; intros tr res evs H; simpl in H.
  - step_inv. split_and!; try done.
  - repeat step_inv.
    + split_and!; [done | done |]. intros h _. by exists pod.
    + apply IH in H as (Hm & Hok & Hstop).
      unfold messages, podDeletions in *. simpl. split_and!.
      * f_equal. exact Hm.
      * intros Hres. f_equal. exact (Hok Hres).
      * intros h Hres. destruct (Hstop h Hres) as [pod' Hpod].
        exists pod'. simpl. f_equal. exact Hpod.
Qed.

(** X11: the eviction prints its success message for exactly the pods
    whose deletion succeeded, in order: for every pod when it completes,
    for the pods before the failing one when it halts. *)
Theorem eviction_reports_deleted_pods userNS volumeName (pods : list string) tr :
  let out := evictLoop env userNS volumeName pods tr in
  messages out.2 = map (deletedMessage volumeName) (omap podDeleted out.2)
  /\ (out.1 = Ok tt -> omap podDeleted out.2 = pods)
  /\ (forall h, out.1 = Stop h ->
        exists pod, podDeletions out.2 = omap podDeleted out.2 ++ [pod]).
Proof.
  destruct (evictLoop env userNS volumeName pods tr) as [res evs] eqn:H.
  by apply evictLoop_messages in H.
Qed.

(** *** The whole run *)

Lemma omap_empty {A B} (f : A -> option B) : omap f [] = [].
Proof. reflexivity. Qed.

Lemma evictLoop_prefix userNS volumeName pods tr res evs :
  evictLoop env userNS volumeName pods tr = (res, evs) ->
  podDeletions evs `prefix_of` pods
  /\ (res = Ok tt -> podDeletions evs = pods)
  /\ (forall h, res = Stop h ->
        exists pod output e,
          h = Fatal (fatalMessage ["delete"; "-n"; userNS; "pod"; pod] e output)
          /\ last evs = Some (EvCommand "kubectl"
                                ["delete"; "-n"; userNS; "pod"; pod]
                                output (Some e)))
  /\ (forall ev, ev ∈ evs -> commandFailed ev = true ->
        last evs = Some ev /\ exists h, res = Stop h).
Proof.
  intros H. apply evictLoop_run in H
    as [(-> & Hd & Hf) | (done & pod & rest & output & e & evs0
                          & -> & -> & -> & Hd & Hf)].
  - split_and!; [by rewrite Hd | done | done |].
    intros ev Hin Hfail. rewrite Forall_forall in Hf.
    rewrite (Hf _ Hin) in Hfail. discriminate.
  - split_and!.
    + rewrite podDeletions_app, Hd. exists rest. by rewrite <- app_assoc.
    + done.
    + intros h [= <-]. exists pod, output, e. by rewrite last_snoc.
    + intros ev [Hin | ->%list_elem_of_singleton]%elem_of_app Hfail.
      * rewrite Forall_forall in Hf. rewrite (Hf _ Hin) in Hfail. discriminate.
      * rewrite last_snoc. eauto.
Qed.

Lemma writeLines_events lines path tr res evs :
  writeLines env lines path tr = (res, evs) ->
  (exists e, res = Ok (Some e) /\ evs = [EvCreateFile path (Some e)])
  \/ (exists ferr,
        res = Ok ferr
        /\ evs = [EvCreateFile path None; EvWriteFile path (fileContent lines) ferr]).
Proof.
  unfold writeLines, bind, call, fileContent.
  destruct (osCreate env tr path) as [e|]; simpl.
  - intros [= <- <-]. left. by exists e.
  - intros [= <- <-]. right. by eexists.
Qed.

(** Inverting one step of a run, the file writes kept. *)
Ltac step_run :=
  match goal with
  | H : writeLines _ _ _ _ = (_, _) |- _ =>
      apply writeLines_events in H as [(? & ? & ?) | (? & ? & ?)]; simplify_eq
  | _ => step_inv
  end.

(** What the loops of a run kept in hypothesis did. *)
Ltac loops_inv p :=
  repeat match goal with
    | H : expandLoop _ _ _ _ _ = _ |- _ =>
        pose proof (expandLoop_run _ _ _ _ _ _ H);
        pose proof (expandLoop_reads _ _ _ _ _ _ (volumeName p) H);
        apply expandLoop_shape in H
    | H : evictLoop _ _ _ _ _ = _ |- _ =>
        pose proof (evictLoop_prefix _ _ _ _ _ _ H);
        pose proof (evictLoop_reads _ _ _ _ _ _ (volumeName p) H);
        pose proof (evictLoop_messages _ _ _ _ _ _ H);
        apply evictLoop_events in H
    end;
  repeat match goal with
    | H : _ /\ _ |- _ => destruct H
    end.

(** Reading the events of a run: the readings of the loops are replaced
    by what is known of them, those of the other events are computed. *)
Ltac read_trace :=
  unfold attached, discovered, namespaceOf, tmpfileOf, defaultNamespaceOf,
    commands, podDeletions, messages, labelLookups, serviceAnswers in *;
  cbn [fst snd] in *;
  rewrite ?omap_app;
  repeat match goal with
    | H : omap ?f ?X = _ |- context [omap ?f ?X] => rewrite H
    end;
  repeat (rewrite omap_empty || rewrite omap_cons_None by reflexivity);
  simpl (omap _ [_]);
  rewrite ?app_nil_l, ?app_nil_r; cbn [app concat head default].

Lemma plan_prefix ns claim tmpfile (dels pods : list string) :
  dels `prefix_of` pods ->
  plan ns claim tmpfile dels `prefix_of` plan ns claim tmpfile pods.
Proof.
  intros [k ->]. unfold plan. do 3 apply prefix_cons.
  exists (map (fun pod => ["delete"; "-n"; ns; "pod"; pod]) k).
  by rewrite map_app.
Qed.

Lemma erasePVC_commands (p : erasePVCFlags) res evs :
  erasePVC env p [] = (res, evs) ->
  commands evs `prefix_of`
    plan (namespaceOf p evs) (volumeName p) (tmpfileOf evs)
         (attached (volumeName p) evs)
  /\ (forall r, res = Ok r ->
        commands evs
        = plan (namespaceOf p evs) (volumeName p) (tmpfileOf evs)
               (attached (volumeName p) evs)).
Proof.
  intros H. unfold erasePVC in H.
  repeat step_run.
  all: loops_inv p.
  all: read_trace.
  all: unfold id; try destruct x as [items|]; cbn [concat app]; rewrite ?app_nil_r.
  all: repeat match goal with
    | H : forall final, Ok ?x = Ok final -> _ |- _ =>
        destruct (H _ eq_refl) as [? ?]; clear H; subst
    | u : unit |- _ => destruct u
    end.
  all: split; [| intros r Hr; try discriminate Hr].
  all: try (unfold plan; repeat apply prefix_cons; apply prefix_nil).
  all: try (apply plan_prefix; assumption).
  all: match goal with
    | H : Ok tt = Ok tt -> omap podDeletion _ = _ |- _ => by rewrite (H eq_refl)
    end.
Qed.

Lemma erasePVC_removal (p : erasePVCFlags) res evs :
  erasePVC env p [] = (res, evs) ->
  omap removal evs = match res with
                     | Ok _ => [tmpfileOf evs]
                     | Stop _ => []
                     end
  /\ (forall r, res = Ok r ->
        r = None
        /\ messages evs
           = map (deletedMessage (volumeName p)) (attached (volumeName p) evs)
             ++ [(LSuccess,
                  "Volume: " +:+ volumeName p +:+ " has been recreated." +:+ nl)]).
Proof.
  intros H. unfold erasePVC in H.
  repeat step_run.
  all: loops_inv p.
  all: read_trace.
  all: unfold id; try destruct x as [items|]; cbn [concat app]; rewrite ?app_nil_r.
  all: repeat match goal with
    | H : forall final, Ok ?x = Ok final -> _ |- _ =>
        destruct (H _ eq_refl) as [? ?]; clear H; subst
    | u : unit |- _ => destruct u
    end.
  all: split; [| intros r Hr; try discriminate Hr].
  all: try done.
  all: split; [congruence|].
  all: match goal with
    | H : Ok tt = Ok tt -> omap podDeleted _ = _ |- _ => by rewrite (H eq_refl)
    end.
Qed.

Lemma erasePVC_manifest (p : erasePVCFlags) res evs :
  erasePVC env p [] = (res, evs) ->
  (omap written evs = []
   \/ exists output lines ferr,
        omap exported evs = [output]
        /\ sanitize (scanLines output) = Some lines
        /\ omap written evs = [(tmpfileOf evs, fileContent lines, ferr)])
  /\ (2 <= length (commands evs) ->
      exists content, omap written evs = [(tmpfileOf evs, content, None)]).
Proof.
  intros H. unfold erasePVC in H.
  repeat step_run.
  all: loops_inv p.
  all: read_trace.
  all: unfold id; cbn [concat app length]; rewrite ?app_nil_r.
  all: split; [first [by left | right; by eexists _, _, _] |].
  all: try (intros Hlen; exfalso; cbn in Hlen; lia).
  all: intros _; by eexists.
Qed.

Lemma erasePVC_namespaces (p : erasePVCFlags) res evs :
  erasePVC env p [] = (res, evs) ->
  Forall (fun ns => ns = defaultNamespaceOf evs) (omap lookupNamespace evs)
  /\ Forall (fun ns => ns = namespaceOf p evs) (omap listingNamespace evs).
Proof.
  intros H. unfold erasePVC in H.
  repeat step_run.
  all: loops_inv p.
  all: read_trace.
  all: unfold id; cbn [concat app length]; rewrite ?app_nil_r.
  all: split; try done; try by repeat constructor.
Qed.

Lemma erasePVC_exits (p : erasePVCFlags) res evs :
  erasePVC env p [] = (res, evs) ->
  forall h,
    res = Stop h -> (forall msg, h <> Fatal msg) ->
    commands evs `prefix_of`
      [ ["get"; "-o"; "yaml"; "-n"; namespaceOf p evs; "pvc"; volumeName p] ].
Proof.
  intros H. unfold erasePVC in H.
  repeat step_run.
  all: loops_inv p.
  all: read_trace.
  all: unfold id; cbn [concat app length]; rewrite ?app_nil_r.
  all: intros h Hh Hfatal; simplify_eq; try (by destruct (Hfatal _ eq_refl)).
  all: try apply prefix_nil; try done.
  match goal with
  | H : forall h0, Stop ?h = Stop h0 -> exists _, _ |- _ =>
      destruct (H _ eq_refl) as (? & ? & ? & -> & _);
      by destruct (Hfatal _ eq_refl)
  end.
Qed.

Lemma expandLoop_stop ns pods attachedpods tr res evs :
  expandLoop env ns pods attachedpods tr = (res, evs) ->
  forall h, res = Stop h -> exists msg, h = CheckErrExit msg.
Proof.
  revert attachedpods tr res evs.
  induction pods as [|pod rest IH]; intros attachedpods tr res evs H; simpl in H.
  - by step_inv.
  - repeat step_inv; try (intros h [= <-]; eauto); eauto.
Qed.

Lemma last_not_failed (evs : list Event) ev :
  Forall (fun ev => commandFailed ev = false) evs ->
  last evs = Some ev -> commandFailed ev = false.
Proof.
  intros Hall Hlast. rewrite Forall_forall in Hall.
  by apply Hall, last_Some_elem_of.
Qed.

Lemma erasePVC_failed_command (p : erasePVCFlags) res evs :
  erasePVC env p [] = (res, evs) ->
  (forall ev, ev ∈ evs -> commandFailed ev = true -> last evs = Some ev)
  /\ (forall name args output e,
        last evs = Some (EvCommand name args output (Some e)) ->
        res = Stop (Fatal (fatalMessage args e output)))
  /\ (forall msg,
        res = Stop (Fatal msg) ->
        exists args output e,
          last evs = Some (EvCommand "kubectl" args output (Some e))
          /\ msg = fatalMessage args e output).
Proof.
  intros H. unfold erasePVC in H.
  repeat step_run.
  all: try match goal with
    | H : expandLoop _ _ _ _ _ = (Stop _, _) |- _ =>
        destruct (expandLoop_stop _ _ _ _ _ _ H _ eq_refl) as [? ->]
    end.
  all: loops_inv p.
  all: cbn [fst snd] in *; rewrite ?app_nil_r; cbn [app].
  all: repeat (rewrite last_cons || rewrite last_app); cbn [last].
  all: repeat match goal with
    | H : forall h0, Stop ?h = Stop h0 -> exists _, _ |- _ =>
        destruct (H _ eq_refl) as (? & ? & ? & -> & Hlast); rewrite Hlast; clear H
    end.
  all: try match goal with
    | HF : Forall (fun ev => commandFailed ev = false) ?X
      |- context [last ?X] =>
        let Hl := fresh "Hl" in
        destruct (last X) as [?|] eqn:Hl;
        [apply (last_not_failed _ _ HF) in Hl|]
    end.
  all: split_and!;
    [ intros ev Hin Hfail | intros name' args' output' e' Heq | intros msg Heq ].
  all: try (simplify_eq; fail).
  all: try (simplify_eq; by eexists _, _, _).
  all: try (simplify_eq; simpl in *; congruence).
  all: try (repeat (progress rewrite ?elem_of_app, ?elem_of_cons, ?elem_of_nil in Hin)).
  all: destruct_or?; simplify_eq; try discriminate Hfail; try done.
  all: try match goal with
    | Hin : ?ev ∈ ?X, HF : Forall (fun ev => commandFailed ev = false) ?X,
      Hfail : commandFailed ?ev = true |- _ =>
        rewrite Forall_forall in HF; rewrite (HF _ Hin) in Hfail;
        discriminate Hfail
    end.
  all: try match goal with
    | Hin : ?ev ∈ ?X, Hfail : commandFailed ?ev = true,
      HE : forall ev, ev ∈ ?X -> commandFailed ev = true -> _ |- _ =>
        destruct (HE _ Hin Hfail) as [? [? ?]]; congruence
    end.
Qed.

(** X1: the external commands of a run are, in order, a prefix of the
    plan: the export of the claim, its deletion, its creation from the
    temporary file, then the deletion of the attached pods, which are the
    discovered pods followed by the pods the service lookups answered;
    a run that returns has issued the whole plan. *)
Theorem erasePVC_follows_plan (p : erasePVCFlags) :
  let out := erasePVC env p [] in
  commands out.2 `prefix_of`
    plan (namespaceOf p out.2) (volumeName p) (tmpfileOf out.2)
         (attached (volumeName p) out.2)
  /\ (forall r, out.1 = Ok r ->
        commands out.2
        = plan (namespaceOf p out.2) (volumeName p) (tmpfileOf out.2)
               (attached (volumeName p) out.2)).
Proof.
  destruct (erasePVC env p []) as [res evs] eqn:H. simpl.
  by apply erasePVC_commands.
Qed.

(** X2: a run that ends in [cmdutil.CheckErr] or in a panic has not
    touched the claim: the only command it can have issued is the export. *)
Theorem erasePVC_exit_before_mutation (p : erasePVCFlags) (h : Halt) :
  let out := erasePVC env p [] in
  out.1 = Stop h -> (forall msg, h <> Fatal msg) ->
  commands out.2 `prefix_of`
    [ ["get"; "-o"; "yaml"; "-n"; namespaceOf p out.2; "pvc"; volumeName p] ].
Proof.
  destruct (erasePVC env p []) as [res evs] eqn:H. simpl.
  by apply erasePVC_exits.
Qed.

(** X3: nothing follows a failed command: an external command that
    returned an error is the last event of the run, a run whose last
    event is a failed command ends in [util.Fatal] with the message of
    that command, which, written out, is its arguments joined by
    spaces, its error and its output, and every fatal end of a run is
    of this kind. *)
Theorem erasePVC_fails_fast (p : erasePVCFlags) :
  let out := erasePVC env p [] in
  (forall ev, ev ∈ out.2 -> commandFailed ev = true -> last out.2 = Some ev)
  /\ (forall name args output e,
        last out.2 = Some (EvCommand name args output (Some e)) ->
        out.1 = Stop (Fatal ("Error while running cmd: " +:+ Join args " "
                             +:+ " Error: " +:+ e
                             +:+ " Output: " +:+ output +:+ nl)))
  /\ (forall msg,
        out.1 = Stop (Fatal msg) ->
        exists args output e,
          last out.2 = Some (EvCommand "kubectl" args output (Some e))
          /\ msg = "Error while running cmd: " +:+ Join args " "
                   +:+ " Error: " +:+ e +:+ " Output: " +:+ output +:+ nl).
Proof.
  destruct (erasePVC env p []) as [res evs] eqn:H. simpl.
  exact (erasePVC_failed_command p res evs H).
Qed.

(** X4: the temporary file is removed exactly by the runs that return;
    a run that halts after creating it leaves it behind.  A run that
    returns returns [nil], and what it printed is the message of every
    attached pod, in order, then the message of the volume. *)
Theorem erasePVC_removes_tmpfile_on_return (p : erasePVCFlags) :
  let out := erasePVC env p [] in
  omap removal out.2 = match out.1 with
                       | Ok _ => [tmpfileOf out.2]
                       | Stop _ => []
                       end
  /\ (forall r, out.1 = Ok r ->
        r = None
        /\ messages out.2
           = map (deletedMessage (volumeName p)) (attached (volumeName p) out.2)
             ++ [(LSuccess,
                  "Volume: " +:+ volumeName p +:+ " has been recreated." +:+ nl)]).
Proof.
  destruct (erasePVC env p []) as [res evs] eqn:H. simpl.
  by apply erasePVC_removal.
Qed.

(** X5: the only file a run writes is its temporary file, and what it
    writes there is the sanitized lines of the manifest the export
    printed, each followed by a newline; the claim is deleted only after
    this file was written and flushed without error. *)
Theorem erasePVC_writes_sanitized_manifest (p : erasePVCFlags) :
  let out := erasePVC env p [] in
  (omap written out.2 = []
   \/ exists output lines ferr,
        omap exported out.2 = [output]
        /\ sanitize (scanLines output) = Some lines
        /\ omap written out.2 = [(tmpfileOf out.2, fileContent lines, ferr)])
  /\ (2 <= length (commands out.2) ->
      exists content, omap written out.2 = [(tmpfileOf out.2, content, None)]).
Proof.
  destruct (erasePVC env p []) as [res evs] eqn:H. simpl.
  by apply (erasePVC_manifest p res).
Qed.

(** X6: the pods are listed in the namespace of the run (the flag when
    it is set, the detected namespace otherwise), but the [service]
    labels and the pods of the services are read in the default
    namespace, whatever the flag. *)
Theorem erasePVC_lookup_namespaces (p : erasePVCFlags) :
  let out := erasePVC env p [] in
  Forall (fun ns => ns = defaultNamespaceOf out.2) (omap lookupNamespace out.2)
  /\ Forall (fun ns => ns = namespaceOf p out.2) (omap listingNamespace out.2).
Proof.
  destruct (erasePVC env p []) as [res evs] eqn:H. simpl.
  by apply (erasePVC_namespaces p res).
Qed.

End WorkflowProps.

(** ** The theorems on concrete manifests and clusters *)

Lemma scenario_split :
  scenario = scenarioPre ++ "status:" :: scenarioBlock ++ scenarioPost.
Proof. reflexivity. Qed.

(** The end-to-end scenario of the manifest. *)
Example sanitize_scenario :
  sanitize scenario
  = Some ["apiVersion: v1"; "metadata:"; "  name: foo"; "spec:"; "  capacity: 1Gi"].
Proof. reflexivity. Qed.

(** A tab does not count as indentation: the line closes the block. *)
Example tab_closes_block :
  sanitize ["status:"; String (ascii_of_nat 9) "phase: Bound"; "spec:"]
  = Some [String (ascii_of_nat 9) "phase: Bound"; "spec:"].
Proof. reflexivity. Qed.

(** A line removed by prefix does not close the block. *)
Example stop_line_keeps_block_open :
  sanitize ["status:"; "  phase: Bound"; "uid: 1"; "  left: over"; "spec:"]
  = Some ["spec:"].
Proof. reflexivity. Qed.

(** The end-to-end scenario of the workflow: the run completes, the
    label of [app-1] alone is read, and the pods of its service are
    deleted after it. *)
Example erasePVC_scenario :
  let out := erasePVC (scripted scenarioCluster) (flagsFor "data-pv-claim") [] in
  out.1 = Ok None
  /\ labelLookups out.2 = ["app-1"]
  /\ podDeletions out.2 = ["app-1"; "app-1"; "app-2"].
Proof. vm_compute. done. Qed.

(** A blank line inside the status block of the exported manifest: the
    run panics after the export, before the claim is touched. *)
Example erasePVC_blank_line_panics :
  let out := erasePVC (scripted blankInStatus) (flagsFor "data-pv-claim") [] in
  out.1 = Stop Panic
  /\ commands out.2 = [ ["get"; "-o"; "yaml"; "-n"; "ns1"; "pvc"; "data-pv-claim"] ].
Proof. vm_compute. done. Qed.

(** C1, counterexample: in the scenario manifest the line [selfLink]
    before the status block is not preserved. *)
Lemma status_block_claim_fails : ~ removesExactlyTheBlock.
Proof.
  intros H. specialize (H scenarioPre scenarioBlock scenarioPost).
  rewrite <- scenario_split, sanitize_scenario in H.
  assert (Some ["apiVersion: v1"; "metadata:"; "  name: foo"; "spec:";
                "  capacity: 1Gi"]
          = Some (scenarioPre ++ scenarioPost)) as Heq.
  { apply H; [by repeat constructor | reflexivity]. }
  vm_compute in Heq. discriminate Heq.
Qed.

Lemma status_block_removed_witness :
  Forall (fun t => t <> "status:") (plainPre ++ scenarioPost)
  /\ Forall startsWithSpace scenarioBlock
  /\ closesBlock scenarioPost
  /\ Forall (fun t => stopLine t = false) (plainPre ++ scenarioPost)
  /\ sanitize (plainPre ++ "status:" :: scenarioBlock ++ scenarioPost)
     = Some (filter (fun t => stopLine t = false) (plainPre ++ scenarioPost))
  /\ sanitize (plainPre ++ "status:" :: scenarioBlock ++ scenarioPost)
     = Some (plainPre ++ scenarioPost).
Proof.
  assert (Forall (fun t => t <> "status:") (plainPre ++ scenarioPost)) as H1
    by (repeat constructor; discriminate).
  assert (Forall startsWithSpace scenarioBlock) as H2
    by (repeat constructor; eexists; reflexivity).
  assert (closesBlock scenarioPost) as H3.
  { split_and!; [discriminate | intros [rest Heq]; discriminate Heq | reflexivity]. }
  assert (Forall (fun t => stopLine t = false) (plainPre ++ scenarioPost)) as H4
    by (repeat constructor).
  destruct (status_block_removed plainPre scenarioBlock scenarioPost H1 H2 H3)
    as [Hfilter Hexact].
  split_and!; [exact H1 | exact H2 | exact H3 | exact H4 | exact Hfilter
              | exact (Hexact H4)].
Defined.

Lemma stop_line_removed_witness :
  (exists l, l ∈ removedExportedLine
             /\ HasPrefix (TrimSpace "  selfLink: /x") l = true)
  /\ sanitize (["apiVersion: v1"; "metadata:"] ++ "  selfLink: /x" :: ["  name: foo"])
     = Some ["apiVersion: v1"; "metadata:"; "  name: foo"]
  /\ sanitize (["apiVersion: v1"; "metadata:"] ++ "  selfLink: /x" :: ["  name: foo"])
     = sanitize (["apiVersion: v1"; "metadata:"] ++ ["  name: foo"])
  /\ "  selfLink: /x" ∉ ["apiVersion: v1"; "metadata:"; "  name: foo"].
Proof.
  assert (exists l, l ∈ removedExportedLine
                    /\ HasPrefix (TrimSpace "  selfLink: /x") l = true) as H.
  { exists "selfLink". split; [apply list_elem_of_here | reflexivity]. }
  assert (sanitize (["apiVersion: v1"; "metadata:"] ++ "  selfLink: /x"
                      :: ["  name: foo"])
          = Some ["apiVersion: v1"; "metadata:"; "  name: foo"]) as Hrun
    by reflexivity.
  destruct (stop_line_removed ["apiVersion: v1"; "metadata:"] "  selfLink: /x"
              ["  name: foo"] H) as [Hsame Hgone].
  split_and!; [exact H | exact Hrun | exact Hsame | exact (Hgone _ Hrun)].
Defined.

Lemma sanitize_idempotent_witness :
  sanitize scenario
  = Some ["apiVersion: v1"; "metadata:"; "  name: foo"; "spec:"; "  capacity: 1Gi"]
  /\ sanitize ["apiVersion: v1"; "metadata:"; "  name: foo"; "spec:"; "  capacity: 1Gi"]
     = Some ["apiVersion: v1"; "metadata:"; "  name: foo"; "spec:"; "  capacity: 1Gi"].
Proof.
  assert (sanitize scenario
          = Some ["apiVersion: v1"; "metadata:"; "  name: foo"; "spec:";
                  "  capacity: 1Gi"]) as H by reflexivity.
  split; [exact H | exact (sanitize_idempotent scenario _ H)].
Defined.

Lemma sanitize_subsequence_witness :
  sanitize scenario
  = Some ["apiVersion: v1"; "metadata:"; "  name: foo"; "spec:"; "  capacity: 1Gi"]
  /\ sublist ["apiVersion: v1"; "metadata:"; "  name: foo"; "spec:"; "  capacity: 1Gi"]
             scenario
  /\ forall text,
      text ∈ ["apiVersion: v1"; "metadata:"; "  name: foo"; "spec:"; "  capacity: 1Gi"] ->
      text ∈ scenario.
Proof.
  assert (sanitize scenario
          = Some ["apiVersion: v1"; "metadata:"; "  name: foo"; "spec:";
                  "  capacity: 1Gi"]) as H by reflexivity.
  split; [exact H | exact (sanitize_subsequence scenario _ H)].
Defined.

Lemma empty_line_in_status_block_panics_witness :
  Forall startsWithSpace ["  phase: Bound"]
  /\ sanitize (["metadata:"] ++ "status:" :: ["  phase: Bound"] ++ EmptyString :: ["spec:"])
     = None.
Proof.
  assert (Forall startsWithSpace ["  phase: Bound"]) as H
    by (repeat constructor; eexists; reflexivity).
  split; [exact H|].
  exact (empty_line_in_status_block_panics ["metadata:"] ["  phase: Bound"] ["spec:"] H).
Defined.

(** C2, counterexample: the deletion of pod [a] fails and pod [b], which
    is attached as well, gets no deletion request. *)
Lemma eviction_not_independent :
  (findPodsAttachedtoPVC (scripted evictionFails) "data-pv-claim" "ns1" []).1
  = Ok (["a"; "b"], None)
  /\ ~ everyPodAttempted ["a"; "b"]
       (erasePVC (scripted evictionFails) (flagsFor "data-pv-claim") []).2.
Proof.
  split; [reflexivity|]. intros H.
  specialize (H "b" ltac:(by apply list_elem_of_further, list_elem_of_here)).
  vm_compute in H. apply list_elem_of_singleton in H. discriminate H.
Qed.

Lemma eviction_stops_at_first_failure_witness :
  let out := evictLoop (scripted evictionFails) "ns1" "data-pv-claim" ["a"; "b"] [] in
  out.1 = Stop (Fatal ("Error while running cmd: delete -n ns1 pod a"
                       +:+ " Error: exit status 1 Output: boom" +:+ nl))
  /\ podDeletions out.2 = ["a"]
  /\ podDeletions out.2 `prefix_of` ["a"; "b"]
  /\ ((out.1 = Ok tt /\ podDeletions out.2 = ["a"; "b"]
       /\ Forall (fun ev => commandFailed ev = false) out.2)
      \/ (exists done pod rest output e evs0,
            ["a"; "b"] = done ++ pod :: rest
            /\ out.1 = Stop (Fatal ("Error while running cmd: delete -n "
                                    +:+ "ns1" +:+ " pod " +:+ pod
                                    +:+ " Error: " +:+ e
                                    +:+ " Output: " +:+ output +:+ nl))
            /\ out.2 = evs0 ++ [EvCommand "kubectl"
                                  ["delete"; "-n"; "ns1"; "pod"; pod]
                                  output (Some e)]
            /\ podDeletions out.2 = done ++ [pod]
            /\ Forall (fun ev => commandFailed ev = false) evs0)).
Proof.
  split; [reflexivity|]. split; [reflexivity|].
  exact (eviction_stops_at_first_failure (scripted evictionFails)
           "ns1" "data-pv-claim" ["a"; "b"] []).
Defined.

Lemma create_failure_halts_witness :
  let out := erasePVC (scripted creationFails) (flagsFor "data-pv-claim") [] in
  EvCommand "kubectl" ["create"; "-n"; "ns1"; "-f"; "/tmp/gofabric8042"]
    "boom" (Some "exit status 1") ∈ out.2
  /\ out.1 = Stop (Fatal ("Error while running cmd: create -n ns1"
                          +:+ " -f /tmp/gofabric8042"
                          +:+ " Error: exit status 1 Output: boom" +:+ nl))
  /\ (forall e' output',
        out.1 <> Stop (Fatal ("Error while running cmd: delete -n " +:+ "ns1"
                              +:+ " pvc " +:+ "data-pv-claim"
                              +:+ " Error: " +:+ e'
                              +:+ " Output: " +:+ output' +:+ nl)))
  /\ podDeletions out.2 = []
  /\ last out.2 = Some (EvCommand "kubectl"
                          ["create"; "-n"; "ns1"; "-f"; "/tmp/gofabric8042"]
                          "boom" (Some "exit status 1"))
  /\ exists output',
      EvCommand "kubectl" ["delete"; "-n"; "ns1"; "pvc"; "data-pv-claim"]
        output' None ∈ out.2.
Proof.
  assert (EvCommand "kubectl" ["create"; "-n"; "ns1"; "-f"; "/tmp/gofabric8042"]
            "boom" (Some "exit status 1")
          ∈ (erasePVC (scripted creationFails) (flagsFor "data-pv-claim") []).2) as H.
  { apply (bool_decide_unpack _). vm_compute. exact I. }
  split; [exact H|].
  exact (create_failure_halts (scripted creationFails) (flagsFor "data-pv-claim")
           "ns1" "/tmp/gofabric8042" "boom" "exit status 1" H).
Defined.



(** C8, counterexample: no pod mounts the claim, the run completes, and
    it prints no warning. *)
Lemma no_pods_no_warning :
  (findPodsAttachedtoPVC (scripted noPods) "data-pv-claim" "ns1" []).1
  = Ok ([], None)
  /\ (erasePVC (scripted noPods) (flagsFor "data-pv-claim") []).1 = Ok None
  /\ ~ warned (erasePVC (scripted noPods) (flagsFor "data-pv-claim") []).2.
Proof.
  split_and!; [reflexivity | reflexivity |].
  intros [msg H]. vm_compute in H.
  apply list_elem_of_singleton in H. discriminate H.
Qed.

Lemma no_attached_pods_run_witness :
  let out := erasePVC (scripted noPods) (flagsFor "data-pv-claim") [] in
  (forall ns items err,
      EvListPods ns (Some items) err ∈ out.2 ->
      attachedNames "data-pv-claim" items = [])
  /\ out.1 = Ok None
  /\ labelLookups out.2 = []
  /\ podDeletions out.2 = []
  /\ (forall msg, (LWarn, msg) ∉ messages out.2)
  /\ exists ns tmpfile,
      commands out.2 =
        [ ["get"; "-o"; "yaml"; "-n"; ns; "pvc"; "data-pv-claim"];
          ["delete"; "-n"; ns; "pvc"; "data-pv-claim"];
          ["create"; "-n"; ns; "-f"; tmpfile] ]
      /\ messages out.2 =
           [ (LSuccess,
              "Volume: " +:+ "data-pv-claim" +:+ " has been recreated." +:+ nl) ].
Proof.
  assert (forall ns items err,
             EvListPods ns (Some items) err
             ∈ (erasePVC (scripted noPods) (flagsFor "data-pv-claim") []).2 ->
             attachedNames "data-pv-claim" items = []) as H.
  { intros ns items err Hin. vm_compute in Hin.
    repeat (apply elem_of_cons in Hin as [Hin|Hin]; [try discriminate Hin|]).
    - injection Hin as -> -> ->. reflexivity.
    - by apply elem_of_nil in Hin. }
  assert ((erasePVC (scripted noPods) (flagsFor "data-pv-claim") []).1 = Ok None)
    as Hrun by reflexivity.
  destruct (no_attached_pods_run (scripted noPods) (flagsFor "data-pv-claim") H)
    as (Hlabels & Hdel & Hwarn & Hdone).
  split_and!; [exact H | exact Hrun | exact Hlabels | exact Hdel | exact Hwarn
              | exact (Hdone _ Hrun)].
Defined.

(** *** The further properties on concrete manifests and clusters *)

Lemma erasePVC_exit_before_mutation_witness :
  let out := erasePVC (scripted blankInStatus) (flagsFor "data-pv-claim") [] in
  out.1 = Stop Panic
  /\ commands out.2 `prefix_of`
       [ ["get"; "-o"; "yaml"; "-n"; namespaceOf (flagsFor "data-pv-claim") out.2;
          "pvc"; "data-pv-claim"] ].
Proof.
  cbn zeta. split; [by vm_compute|].
  apply (erasePVC_exit_before_mutation (scripted blankInStatus)
           (flagsFor "data-pv-claim") Panic); [by vm_compute|by intros msg].
Defined.

Lemma sanitized_is_clean_witness :
  Forall (fun text =>
            text <> "status:"
            /\ forall l, l ∈ removedExportedLine ->
                         HasPrefix (TrimSpace text) l = false)
         ["apiVersion: v1"; "metadata:"; "  name: foo"; "spec:"; "  capacity: 1Gi"].
Proof. apply (sanitized_is_clean scenario). by vm_compute. Defined.

Lemma sanitize_fails_only_in_status_block_witness :
  exists pre post,
    ["metadata:"; "status:"; "  phase: Bound"; EmptyString; "spec:"]
    = pre ++ EmptyString :: post
    /\ "status:" ∈ pre.
Proof.
  apply (sanitize_fails_only_in_status_block
           ["metadata:"; "status:"; "  phase: Bound"; EmptyString; "spec:"]).
  by vm_compute.
Defined.

Lemma sanitize_without_status_witness :
  sanitize ["apiVersion: v1"; "  selfLink: /x"; EmptyString; "spec:"]
  = Some ["apiVersion: v1"; EmptyString; "spec:"].
Proof.
  rewrite (sanitize_without_status
             ["apiVersion: v1"; "  selfLink: /x"; EmptyString; "spec:"]).
  - by vm_compute.
  - intros Hin.
    repeat (apply elem_of_cons in Hin as [Hin|Hin]; [discriminate Hin|]).
    by apply elem_of_nil in Hin.
Defined.

Lemma scanLines_fileContent_witness :
  scanLines (fileContent scenario) = scenario.
Proof.
  apply (scanLines_fileContent scenario).
  unfold scannable. apply (bool_decide_unpack _). by vm_compute.
Defined.

Lemma erasePVC_lookup_namespaces_witness :
  let out := erasePVC (scripted otherNamespace)
                      (flagsIn "ns2" "data-pv-claim") [] in
  omap listingNamespace out.2 = ["ns2"]
  /\ omap lookupNamespace out.2 = ["ns1"; "ns1"]
  /\ Forall (fun ns => ns = defaultNamespaceOf out.2)
            (omap lookupNamespace out.2).
Proof.
  cbn zeta. split; [by vm_compute|]. split; [by vm_compute|].
  exact (proj1 (erasePVC_lookup_namespaces (scripted otherNamespace)
                  (flagsIn "ns2" "data-pv-claim"))).
Defined.

Lemma erasePVC_fails_fast_witness :
  let out := erasePVC (scripted exportFails) (flagsFor "data-pv-claim") [] in
  commands out.2 = [ ["get"; "-o"; "yaml"; "-n"; "ns1"; "pvc"; "data-pv-claim"] ]
  /\ out.1 = Stop (Fatal ("Error while running cmd: "
                          +:+ "get -o yaml -n ns1 pvc data-pv-claim"
                          +:+ " Error: exit status 1 Output: boom" +:+ nl)).
Proof.
  cbn zeta. split; [by vm_compute|].
  refine (proj1 (proj2 (erasePVC_fails_fast (scripted exportFails)
                          (flagsFor "data-pv-claim")))
            "kubectl" ["get"; "-o"; "yaml"; "-n"; "ns1"; "pvc"; "data-pv-claim"]
            "boom" "exit status 1" _).
  by vm_compute.
Defined.

(** ** Properties of the service commands *)

Module ServiceProps.
Import Run Service.

Section Props.

Variable env : Env.
Variable Sprintf0 : string -> string.

Lemma svc_bind_run {A B} (m : Cmd A) (f : A -> Cmd B) tr :
  bind m f tr =
    match m tr with
    | (Ok a, evs) => let (r, evs') := f a (tr ++ evs) in (r, evs ++ evs')
    | (Stop h, evs) => (Stop h, evs)
    end.
Proof. reflexivity. Qed.

(** *** [MultiError] *)

Lemma Collect_all errs m :
  Errors (fold_left Collect errs m) = Errors m ++ map Some (omap id errs).
Proof.
  revert m. induction errs as [|[msg|] errs IH]; intros m; simpl.
  - by rewrite app_nil_r.
  - rewrite IH. simpl. by rewrite <- app_assoc.
  - apply IH.
Qed.

Lemma errorStrings_Some msgs acc :
  errorStrings (map Some msgs) acc = Some (acc ++ msgs).
Proof.
  revert acc. induction msgs as [|msg msgs IH]; intros acc; simpl.
  - by rewrite app_nil_r.
  - rewrite IH. by rewrite <- app_assoc.
Qed.

Lemma ToError_messages msgs tr :
  ToError Sprintf0 {| Errors := map Some msgs |} tr =
    (match msgs with
     | [] => Ok None
     | _ => Ok (Some (Sprintf0 (Join msgs nl)))
     end, []).
Proof.
  unfold ToError. cbn [Errors]. rewrite errorStrings_Some.
  by destruct msgs.
Qed.

(** X13: collecting errors into an empty [MultiError] and converting it
    never panics: [nil] errors are skipped, the result is [nil] when
    every collected error was [nil], and otherwise it is one error whose
    message is the messages of the others, in the order of collection,
    joined by newlines and passed to [fmt.Errorf] as its format. *)
Theorem ToError_collected (errs : list error) tr :
  ToError Sprintf0 (fold_left Collect errs {| Errors := [] |}) tr =
    (match omap id errs with
     | [] => Ok None
     | msgs => Ok (Some (Sprintf0 (Join msgs nl)))
     end, []).
Proof.
  pose proof (Collect_all errs {| Errors := [] |}) as H. cbn [Errors app] in H.
  destruct (fold_left Collect errs {| Errors := [] |}) as [es].
  cbn [Errors] in H. subst es. rewrite ToError_messages.
  by destruct (omap id errs).
Qed.

(** *** [RetryAfter] *)

Lemma ToError_of_messages m msgs tr :
  Errors m = map Some msgs ->
  ToError Sprintf0 m tr =
    (match msgs with
     | [] => Ok None
     | _ => Ok (Some (Sprintf0 (Join msgs nl)))
     end, []).
Proof. destruct m as [es]. cbn [Errors]. intros ->. apply ToError_messages. Qed.

Lemma retryLoop_outcome n callback d m msgs0 tr :
  Errors m = map Some msgs0 ->
  exists msgs evs,
    Failures callback d tr msgs evs /\ length msgs <= n /\
    let out := retryLoop Sprintf0 n callback d m tr in
    match out.1 with
    | Ok (Some e) =>
        length msgs = n /\ msgs0 ++ msgs <> [] /\ out.2 = evs
        /\ e = Sprintf0 (Join (msgs0 ++ msgs) nl)
    | Ok None =>
        (length msgs = n /\ msgs0 ++ msgs = [] /\ out.2 = evs)
        \/ (length msgs < n
            /\ exists evs', callback (tr ++ evs) = (Ok None, evs')
                            /\ out.2 = evs ++ evs')
    | Stop h =>
        length msgs < n
        /\ exists evs', callback (tr ++ evs) = (Stop h, evs')
                        /\ out.2 = evs ++ evs'
    end.
Proof.
  revert m msgs0 tr. induction n as [|n IH]; intros m msgs0 tr Hm.
  - exists [], []. split; [constructor|]. split; [done|].
    cbn [retryLoop]. rewrite (ToError_of_messages _ _ _ Hm), app_nil_r.
    destruct msgs0; cbn [fst snd]; [by left|done].
  - cbn [retryLoop]. unfold bind.
    destruct (callback tr) as [[[msg|]|h] evs1] eqn:Hcall.
    + assert (Errors (Collect m (Some msg)) = map Some (msgs0 ++ [msg])) as Hm'.
      { cbn [Collect Errors]. by rewrite Hm, map_app. }
      destruct (IH _ _ ((tr ++ evs1) ++ [EvSleep d]) Hm')
        as (msgs & evs & Hf & Hlen & Hout).
      rewrite <- !app_assoc in Hf.
      exists (msg :: msgs), (evs1 ++ EvSleep d :: evs).
      split; [by econstructor|]. split; [simpl; lia|].
      cbn zeta in Hout. unfold emit.
      destruct (retryLoop Sprintf0 n callback d _ _) as [res evs2].
      cbn [fst snd app] in *. rewrite <- ?app_assoc in Hout.
      cbn [app] in Hout.
      destruct res as [[e|]|h].
      * destruct Hout as (? & ? & -> & ->). split_and!; simpl; auto.
      * destruct Hout as [(? & Hnil & _)|(? & evs' & Hc & ->)].
        { by destruct msgs0. }
        right. split; [simpl; lia|]. exists evs'.
        rewrite <- !app_assoc. cbn [app]. split; [exact Hc|done].
      * destruct Hout as (? & evs' & Hc & ->).
        split; [simpl; lia|]. exists evs'.
        rewrite <- !app_assoc. cbn [app]. split; [exact Hc|done].
    + exists [], []. split; [constructor|]. split; [simpl; lia|].
      unfold ret. cbn [fst snd length app]. right. split; [lia|].
      exists evs1. rewrite !app_nil_r. by rewrite Hcall.
    + exists [], []. split; [constructor|]. split; [simpl; lia|].
      cbn [fst snd length app]. split; [lia|].
      exists evs1. rewrite !app_nil_r. by rewrite Hcall.
Qed.

Lemma RetryAfter_spec attempts callback d tr :
  let out := RetryAfter Sprintf0 attempts callback d tr in
  exists msgs evs,
    Failures callback d tr msgs evs /\ length msgs <= Z.to_nat attempts /\
    match out.1 with
    | Ok (Some e) =>
        (0 < attempts)%Z /\ length msgs = Z.to_nat attempts /\ out.2 = evs
        /\ e = Sprintf0 (Join msgs nl)
    | Ok None =>
        ((attempts <= 0)%Z /\ out.2 = [])
        \/ (length msgs < Z.to_nat attempts
            /\ exists evs', callback (tr ++ evs) = (Ok None, evs')
                            /\ out.2 = evs ++ evs')
    | Stop h =>
        length msgs < Z.to_nat attempts
        /\ exists evs', callback (tr ++ evs) = (Stop h, evs')
                        /\ out.2 = evs ++ evs'
    end.
Proof.
  cbn zeta. unfold RetryAfter.
  destruct (retryLoop_outcome (Z.to_nat attempts) callback d {| Errors := [] |} [] tr eq_refl)
    as (msgs & evs & Hf & Hlen & Hout).
  exists msgs, evs. split; [exact Hf|]. split; [exact Hlen|].
  cbn zeta in Hout. cbn [map app] in Hout.
  destruct (retryLoop Sprintf0 _ callback d _ tr) as [[[e|]|h] evs2];
    cbn [fst snd] in *.
  - destruct Hout as (Hn & Hne & -> & ->). split_and!; auto.
    destruct msgs; [done|]. simpl in Hn. lia.
  - destruct Hout as [(Hn & -> & ->)|Hout]; [|by right].
    left. simpl in Hn. split; [lia|].
    by inversion Hf.
  - exact Hout.
Qed.

(** X14: what [RetryAfter] does, whatever the callback.  The callback
    is called at most [attempts] times; each call that returns an error
    is followed by a sleep of [d]; the first call that returns [nil]
    ends the loop with [nil]; a call that does not return ends the run.
    An error is returned only when [attempts] is positive and all of the
    [attempts] calls failed, and its message is the messages of these
    calls in order, joined by newlines. With [attempts <= 0] the
    callback is never called and the result is [nil]. *)
Theorem RetryAfter_outcome attempts callback d tr :
  let out := RetryAfter Sprintf0 attempts callback d tr in
  exists msgs evs,
    Failures callback d tr msgs evs /\ length msgs <= Z.to_nat attempts /\
    match out.1 with
    | Ok (Some e) =>
        (0 < attempts)%Z /\ length msgs = Z.to_nat attempts /\ out.2 = evs
        /\ e = Sprintf0 (Join msgs nl)
    | Ok None =>
        ((attempts <= 0)%Z /\ out.2 = [])
        \/ (length msgs < Z.to_nat attempts
            /\ exists evs', callback (tr ++ evs) = (Ok None, evs')
                            /\ out.2 = evs ++ evs')
    | Stop h =>
        length msgs < Z.to_nat attempts
        /\ exists evs', callback (tr ++ evs) = (Stop h, evs')
                        /\ out.2 = evs ++ evs'
    end.
Proof. apply RetryAfter_spec. Qed.

Lemma Failures_sleeps callback d tr msgs evs :
  (forall tr', sleeps (callback tr').2 = []) ->
  Failures callback d tr msgs evs ->
  sleeps evs = replicate (length msgs) d.
Proof.
  intros Hquiet. induction 1 as [|tr msg evs msgs evs' Hc _ IH]; [done|].
  pose proof (Hquiet tr) as Hq. rewrite Hc in Hq. cbn [snd] in Hq.
  unfold sleeps in *.
  change (EvSleep d :: evs') with ([EvSleep d] ++ evs').
  by rewrite !omap_app, Hq, IH.
Qed.

(** X15: the time [RetryAfter] spends asleep, for a callback that does
    not sleep itself: every sleep lasts [d], there is one sleep per
    failed call, so at most [attempts], and an error is returned only
    after exactly [attempts] sleeps: the delay is also paid after the
    last failed attempt, before the error is reported. *)
Theorem RetryAfter_sleeps attempts callback d tr :
  (forall tr', sleeps (callback tr').2 = []) ->
  let out := RetryAfter Sprintf0 attempts callback d tr in
  exists k,
    sleeps out.2 = replicate k d /\ k <= Z.to_nat attempts /\
    (forall e, out.1 = Ok (Some e) -> k = Z.to_nat attempts /\ (0 < attempts)%Z) /\
    (out.1 = Ok None -> (0 < attempts)%Z -> k < Z.to_nat attempts).
Proof.
  intros Hquiet. cbn zeta.
  destruct (RetryAfter_spec attempts callback d tr)
    as (msgs & evs & Hf & Hlen & Hout).
  pose proof (Failures_sleeps _ _ _ _ _ Hquiet Hf) as Hs.
  exists (length msgs).
  destruct (RetryAfter Sprintf0 attempts callback d tr) as [res evs2].
  cbn [fst snd] in *.
  assert (forall evs', (exists r, callback (tr ++ evs) = (r, evs')) ->
                       sleeps (evs ++ evs') = replicate (length msgs) d) as Hlast.
  { intros evs' [r Hc]. unfold sleeps in *. rewrite omap_app, Hs.
    pose proof (Hquiet (tr ++ evs)) as Hq. rewrite Hc in Hq. cbn [snd] in Hq.
    unfold sleeps in Hq. by rewrite Hq, app_nil_r. }
  destruct res as [[e|]|h].
  - destruct Hout as (? & ? & -> & _). split_and!; [done|done| |done].
    intros e' _. by split.
  - destruct Hout as [(? & ->)|(? & evs' & Hc & ->)].
    + assert (length msgs = 0) as Hz by lia.
      rewrite Hz. split_and!; [done|lia|done|lia].
    + split_and!; [eauto|done|done|done].
  - destruct Hout as (? & evs' & Hc & ->).
    split_and!; [eauto|done|done|done].
Qed.

(** *** The checks *)

Lemma checkSubsets_cases subsets tr :
  (Forall (fun subset => NotReadyAddresses subset = []) subsets
   /\ checkSubsets subsets tr = (Ok None, []))
  \/ (~ Forall (fun subset => NotReadyAddresses subset = []) subsets
      /\ exists msg,
          checkSubsets subsets tr = (Ok (Some notReadyYet), [EvStderr msg])).
Proof.
  revert tr. induction subsets as [|subset rest IH]; intros tr.
  - left. by split.
  - cbn [checkSubsets].
    destruct (NotReadyAddresses subset) as [|a l] eqn:Hn; cbn [length Nat.eqb negb].
    + destruct (IH tr) as [[Hall ->]|(Hnot & msg & ->)].
      * left. split; [by constructor|done].
      * right. split; [|by exists msg].
        intros Hall. apply Hnot. by inversion Hall.
    + right. split; [|by eexists].
      intros Hall. inversion Hall; congruence.
Qed.

Lemma CheckEndpointReady_cases endpoint tr :
  (ready endpoint /\ CheckEndpointReady (Some endpoint) tr = (Ok None, []))
  \/ (~ ready endpoint
      /\ exists msg,
          CheckEndpointReady (Some endpoint) tr
          = (Ok (Some notReadyYet), [EvStderr msg])).
Proof.
  unfold CheckEndpointReady, ready, deref, bind, ret. rewrite app_nil_r.
  destruct (Subsets endpoint) as [|subset rest] eqn:Hs.
  - right. split; [by intros [? _]|]. by eexists.
  - change (length (subset :: rest) =? 0)%nat with false. cbv iota.
    destruct (checkSubsets_cases (subset :: rest) tr)
      as [[Hall ->]|(Hnot & msg & ->)].
    + left. by split.
    + right. split; [by intros [_ ?]|]. by exists msg.
Qed.

Lemma checkSubsets_not_ready subsets tr :
  ~ Forall (fun subset => NotReadyAddresses subset = []) subsets ->
  checkSubsets subsets tr
  = (Ok (Some ("Endpoint for service is not ready yet" +:+ nl)),
     [EvStderr ("Waiting, endpoint for service is not ready yet..." +:+ nl)]).
Proof.
  induction subsets as [|subset rest IH]; intros Hnot.
  - by destruct Hnot.
  - cbn [checkSubsets].
    destruct (NotReadyAddresses subset) as [|a l] eqn:Hn;
      cbn [length Nat.eqb negb]; [|done].
    apply IH. intros Hall. apply Hnot. by constructor.
Qed.

(** X16: [CheckEndpointReady] accepts an endpoint exactly when it has at
    least one subset and no subset has an address that is not ready; the
    ready addresses are not looked at, so subsets without any address
    count as ready.  An accepted endpoint is accepted silently.  Any
    other endpoint gets the error [Endpoint for service is not ready
    yet], with one message on the standard error: a dot when there is
    no subset, the waiting message otherwise. *)
Theorem CheckEndpointReady_ready endpoint tr :
  let out := CheckEndpointReady (Some endpoint) tr in
  (out = (Ok None, []) <-> ready endpoint)
  /\ (~ ready endpoint ->
      out = (Ok (Some ("Endpoint for service is not ready yet" +:+ nl)),
             [EvStderr match Subsets endpoint with
                       | [] => "."
                       | _ :: _ =>
                           "Waiting, endpoint for service is not ready yet..."
                           +:+ nl
                       end])).
Proof.
  cbn zeta. split.
  - destruct (CheckEndpointReady_cases endpoint tr)
      as [[Hr ->]|(Hnot & msg & ->)]; [done|].
    split; [discriminate|done].
  - intros Hnot. unfold CheckEndpointReady, ready, deref, bind, ret in *.
    rewrite app_nil_r.
    destruct (Subsets endpoint) as [|subset rest] eqn:Hs; [done|].
    change (length (subset :: rest) =? 0)%nat with false. cbv iota.
    rewrite checkSubsets_not_ready; [done|].
    intros Hall. by apply Hnot.
Qed.

Lemma CheckService_cases ns service tr :
  let out := CheckService env ns service tr in
  (exists msg, out = (Stop Panic, [EvEndpoints ns true; EvPrint LError msg]))
  \/ (exists endpoint e msg,
        out = (Ok (Some e),
               [EvEndpoints ns false;
                EvEndpointsGet ns service endpoint (Some e)] ++ [EvPrint LError msg]))
  \/ out = (Stop Panic,
            [EvEndpoints ns false] ++ [EvEndpointsGet ns service None None])
  \/ (exists endpoint,
        ready endpoint
        /\ out = (Ok None,
                  [EvEndpoints ns false]
                  ++ [EvEndpointsGet ns service (Some endpoint) None]))
  \/ (exists endpoint msg,
        ~ ready endpoint
        /\ out = (Ok (Some notReadyYet),
                  [EvEndpoints ns false;
                   EvEndpointsGet ns service (Some endpoint) None]
                  ++ [EvStderr msg])).
Proof.
  cbn zeta.
  unfold CheckService, endpointsGet, utilErrorf, bind, call, emit, halt, ret.
  cbn beta.
  destruct (EndpointsIsNil env tr ns); cbn [fst snd app].
  { left. eexists; reflexivity. }
  destruct (EndpointsGet env _ ns service) as [endpoint [e|]]; cbn [fst snd].
  { right; left. eexists _, _, _; reflexivity. }
  destruct endpoint as [endpoint|].
  2:{ right; right; left. reflexivity. }
  destruct (CheckEndpointReady_cases endpoint
              (tr ++ [EvEndpoints ns false;
                      EvEndpointsGet ns service (Some endpoint) None]))
    as [[Hr Hc]|(Hnot & msg & Hc)]; rewrite Hc.
  - right; right; right; left. by exists endpoint.
  - right; right; right; right. by exists endpoint, msg.
Qed.

Lemma CheckService_reads ns service tr :
  let out := CheckService env ns service tr in
  sleeps out.2 = []
  /\ length (omap endpointGet out.2) <= 1
  /\ (forall e, out.1 = Ok e -> length (omap endpointGet out.2) = 1)
  /\ (out.1 = Ok None ->
      exists endpoint,
        ready endpoint
        /\ last out.2 = Some (EvEndpointsGet ns service (Some endpoint) None))
  /\ (forall h, out.1 = Stop h -> h = Panic).
Proof.
  cbn zeta.
  destruct (CheckService_cases ns service tr)
    as [(msg & ->)|[(endpoint & e & msg & ->)|[->|[(endpoint & Hr & ->)
        |(endpoint & msg & Hnot & ->)]]]]; cbn [fst snd];
    (split_and!; [done|simpl; lia|try done|try done|intros h; congruence]).
  intros _. by exists endpoint.
Qed.

(** *** Waiting *)

Lemma Failures_count {B} (f : Event -> option B) callback d tr msgs evs :
  f (EvSleep d) = None ->
  (forall tr' msg evs',
      callback tr' = (Ok (Some msg), evs') -> length (omap f evs') = 1) ->
  Failures callback d tr msgs evs ->
  length (omap f evs) = length msgs.
Proof.
  intros Hs Hone. induction 1 as [|tr msg evs msgs evs' Hc _ IH]; [done|].
  change (EvSleep d :: evs') with ([EvSleep d] ++ evs').
  rewrite !omap_app, !length_app, IH, (Hone _ _ _ Hc).
  simpl. by rewrite Hs.
Qed.

Lemma waitFor_cases what serviceName callback tr :
  let out := waitFor Sprintf0 what serviceName callback tr in
  let r := RetryAfter Sprintf0 1200 callback tenSeconds tr in
  match r.1 with
  | Ok None => out = (Ok tt, r.2)
  | Ok (Some msg) =>
      out = (Stop (Exit 1),
             r.2 ++ [EvPrint LError (what +:+ serviceName +:+ ": " +:+ msg)])
  | Stop h => out = (Stop h, r.2)
  end.
Proof.
  cbn zeta. unfold waitFor, bind.
  destruct (RetryAfter Sprintf0 1200 callback tenSeconds tr)
    as [[[msg|]|h] evs]; cbn [fst snd];
    unfold utilErrorf, bind, emit, halt, ret; cbn [fst snd];
    by rewrite ?app_nil_r.
Qed.

(** X17: [WaitForService] polls the endpoint of the service at most
    1200 times.  It returns only when the last poll found an endpoint
    that is ready.  Otherwise the run ends: with exit status 1 after
    exactly 1200 polls, each followed by a sleep of ten seconds (200
    minutes in all, the last sleep included) and a final error message,
    or with a panic of a poll (a [nil] endpoints client or a [nil]
    endpoint). *)
Theorem WaitForService_polls ns serviceName tr :
  let out := WaitForService env Sprintf0 ns serviceName tr in
  length (omap endpointGet out.2) <= 1200
  /\ (out.1 = Ok tt ->
      exists endpoint,
        ready endpoint
        /\ last out.2 = Some (EvEndpointsGet ns serviceName (Some endpoint) None))
  /\ (forall h, out.1 = Stop h ->
      h = Panic
      \/ h = Exit 1
         /\ length (omap endpointGet out.2) = 1200
         /\ sleeps out.2 = replicate 1200 tenSeconds
         /\ exists msg, last out.2 = Some (EvPrint LError msg)).
Proof.
  cbn zeta. unfold WaitForService.
  pose proof (waitFor_cases
                "Could not find finalized endpoint being pointed to by "
                serviceName (CheckService env ns serviceName) tr) as Hw.
  cbn zeta in Hw.
  destruct (RetryAfter_spec 1200 (CheckService env ns serviceName) tenSeconds tr)
    as (msgs & evs & Hf & Hlen & Hout).
  assert (length (omap endpointGet evs) = length msgs) as Hcount.
  { apply (Failures_count endpointGet (CheckService env ns serviceName) tenSeconds tr _ _ eq_refl); [|exact Hf].
    intros tr' msg evs' Hc.
    pose proof (CheckService_reads ns serviceName tr') as (_ & _ & H1 & _).
    rewrite Hc in H1. by apply (H1 (Some msg)). }
  assert (sleeps evs = replicate (length msgs) tenSeconds) as Hsleeps.
  { apply (Failures_sleeps _ _ _ _ _) in Hf; [done|].
    intros tr'. apply CheckService_reads. }
  change (Z.to_nat 1200) with 1200 in *.
  destruct (RetryAfter Sprintf0 1200 _ tenSeconds tr) as [[[e|]|h] evs2];
    cbn [fst snd] in *; rewrite Hw; cbn [fst snd]; clear Hw.
  - destruct Hout as (_ & Hn & -> & ->).
    rewrite omap_app, length_app, Hcount, Hn. split; [simpl; lia|].
    split; [done|]. intros h [= <-]. right.
    split_and!; [done|simpl; lia| |by rewrite last_snoc; eexists].
    unfold sleeps in *. by rewrite omap_app, Hsleeps, Hn, app_nil_r.
  - destruct Hout as [[? _]|(Hn & evs' & Hc & ->)]; [lia|].
    pose proof (CheckService_reads ns serviceName (tr ++ evs))
      as (_ & Hle & _ & Hlast & _).
    rewrite Hc in Hle, Hlast. cbn [fst snd] in *.
    rewrite omap_app, length_app, Hcount. split; [lia|].
    split; [|done]. intros _.
    destruct (Hlast eq_refl) as (endpoint & Hr & Hl).
    exists endpoint. split; [done|].
    destruct evs'; [done|]. by rewrite last_app, Hl.
  - destruct Hout as (Hn & evs' & Hc & ->).
    pose proof (CheckService_reads ns serviceName (tr ++ evs))
      as (_ & Hle & _ & _ & Hh).
    rewrite Hc in Hle, Hh. cbn [fst snd] in *.
    rewrite omap_app, length_app, Hcount. split; [lia|].
    split; [done|]. intros h' [= <-]. left. by apply Hh.
Qed.

(** *** The external address *)

Lemma HasExternalIP_cases ns name tr :
  exists svc err,
    HasExternalIP env ns name tr =
      (match err, svc with
       | Some _, _ => Ok err
       | None, None => Stop Panic
       | None, Some svc =>
           match Ingress svc with
           | ingress :: _ =>
               if negb (String.eqb (IP ingress) EmptyString)
                  || negb (String.eqb (Hostname ingress) EmptyString)
               then Ok None else Ok (Some noExternalIP)
           | [] => Ok (Some noExternalIP)
           end
       end, [EvServicesGet ns name svc err]).
Proof.
  unfold HasExternalIP, servicesGet, firstIngress, deref, bind, call, halt, ret.
  cbn beta.
  destruct (ServicesGet env tr ns name) as [svc err]. exists svc, err.
  cbn [fst snd]. destruct err as [e|]; [done|].
  destruct svc as [svc|]; [|done].
  destruct (Ingress svc) as [|ingress rest]; [done|]. cbn [length Nat.ltb Nat.leb].
  by destruct (negb (String.eqb (IP ingress) EmptyString)
               || negb (String.eqb (Hostname ingress) EmptyString)).
Qed.

Lemma WaitForExternalIPAddress_cases ns name tr :
  let w := waitFor Sprintf0 "Could not find external IP for " name
                   (HasExternalIP env ns name) tr in
  let out := WaitForExternalIPAddress env Sprintf0 ns name tr in
  match w.1 with
  | Ok _ =>
      exists svc err,
        out = (match err with
               | Some _ => Ok (EmptyString, err)
               | None => addressResult svc
               end, w.2 ++ [EvServicesGet ns name svc err])
  | Stop h => out = (Stop h, w.2)
  end.
Proof.
  cbn zeta. unfold WaitForExternalIPAddress. rewrite svc_bind_run.
  destruct (waitFor Sprintf0 _ name _ tr) as [[[]|h] evs]; cbn [fst snd]; [|done].
  unfold servicesGet, firstIngress, deref, bind, call, halt, ret. cbn beta.
  destruct (ServicesGet env (tr ++ evs) ns name) as [svc err].
  exists svc, err. cbn [fst snd]. destruct err as [e|]; [done|].
  destruct svc as [svc|]; [|done]. unfold addressResult.
  destruct (Ingress svc) as [|ingress rest]; [done|]. cbn [app].
  by destruct (String.eqb (IP ingress) EmptyString).
Qed.

(** X18: the result of [WaitForExternalIPAddress] is read off the last
    thing the run did.  A run that gave up ends with an error message
    and exit status 1.  Any other run ends with a lookup of the service,
    and what this lookup answered decides alone: its error is returned
    with an empty address; without error the address is the IP of the
    first ingress, or its host name when the IP is empty; and the run
    panics when the answer has no ingress, although the wait before
    it had seen one. *)
Theorem WaitForExternalIPAddress_result ns name tr :
  let out := WaitForExternalIPAddress env Sprintf0 ns name tr in
  match last out.2 with
  | Some (EvServicesGet ns' name' svc None) =>
      ns' = ns /\ name' = name /\ out.1 = addressResult svc
  | Some (EvServicesGet ns' name' svc (Some e)) =>
      ns' = ns /\ name' = name /\ out.1 = Ok (EmptyString, Some e)
  | Some (EvPrint LError _) => out.1 = Stop (Exit 1)
  | _ => False
  end.
Proof.
  cbn zeta.
  pose proof (WaitForExternalIPAddress_cases ns name tr) as Hx.
  pose proof (waitFor_cases "Could not find external IP for " name
                (HasExternalIP env ns name) tr) as Hw.
  cbn zeta in Hx, Hw.
  destruct (RetryAfter_spec 1200 (HasExternalIP env ns name) tenSeconds tr)
    as (msgs & evs & Hf & Hlen & Hout).
  destruct (RetryAfter Sprintf0 1200 _ tenSeconds tr) as [[[e|]|h] evs2];
    cbn [fst snd] in *; rewrite Hw in Hx; cbn [fst snd] in Hx; clear Hw.
  - rewrite Hx. cbn [fst snd]. by rewrite last_snoc.
  - destruct Hx as (svc & err & ->). cbn [fst snd]. rewrite last_snoc.
    by destruct err.
  - rewrite Hx. cbn [fst snd].
    destruct Hout as (_ & evs' & Hc & ->).
    destruct (HasExternalIP_cases ns name (tr ++ evs)) as (svc & err & Hh).
    rewrite Hh in Hc. injection Hc as Hres <-. rewrite last_snoc.
    destruct err as [e|]; [done|]. destruct svc as [svc|].
    + destruct (Ingress svc) as [|ingress rest]; [done|].
      by destruct (negb (String.eqb (IP ingress) EmptyString)
                   || negb (String.eqb (Hostname ingress) EmptyString)).
    + by injection Hres as <-.
Qed.

(** X19: [CheckExternalService] on a service that was found: without
    the URL annotation (or with an empty one) it fails at once and asks
    for no endpoint; with it, it is [CheckService] run after the
    lookup. *)
Theorem CheckExternalService_checks_service ns service tr svc :
  ServicesGet env tr ns service = (Some svc, None) ->
  let lookup := EvServicesGet ns service (Some svc) None in
  let inner := CheckService env ns service (tr ++ [lookup]) in
  CheckExternalService env ns service tr =
    if String.eqb (annotation svc exposeURLAnnotation) EmptyString
    then (Ok (Some "No external URL annotation"), [lookup])
    else (inner.1, lookup :: inner.2).
Proof.
  intros Hget. cbn zeta.
  unfold CheckExternalService, CheckService, servicesGet, deref.
  unfold bind at 1. unfold call at 1. rewrite Hget. cbn [fst snd].
  unfold bind at 1. unfold ret at 1. rewrite app_nil_r. cbn [app].
  destruct (String.eqb (annotation svc exposeURLAnnotation) EmptyString);
    [done|].
  by destruct (bind _ _ _).
Qed.

(** *** [FindServiceInEveryNamespace] *)

Lemma length_pos (s : string) :
  (0 <? String.length s)%nat = negb (String.eqb s EmptyString).
Proof. by destruct s. Qed.

Lemma urlOf_run svc name tr : urlOf svc name tr = (urlResult name svc, []).
Proof.
  unfold urlOf, urlResult, deref. rewrite svc_bind_run.
  destruct svc as [svc|]; [|done]. unfold ret at 1. cbn [app].
  rewrite length_pos.
  by destruct (String.eqb (annotation svc exposeURLAnnotation) EmptyString).
Qed.

Lemma findInProjects_run name projects tr :
  let out := findInProjects env name projects tr in
  exists fails,
    (out = (Ok (EmptyString, Some (notFoundAnywhere name)),
            map (failedLookup name) fails)
     /\ projects = map fst fails)
    \/ (exists ns svc rest,
          out = (urlResult name svc,
                 map (failedLookup name) fails ++ [EvServicesGet ns name svc None])
          /\ projects = map fst fails ++ ns :: rest).
Proof.
  cbn zeta. revert tr. induction projects as [|ns projects IH]; intros tr.
  - exists []. by left.
  - cbn [findInProjects]. rewrite svc_bind_run. unfold servicesGet, call.
    destruct (ServicesGet env tr ns name) as [svc [e|]]; cbn [fst snd].
    + destruct (IH (tr ++ [EvServicesGet ns name svc (Some e)]))
        as [fails [[-> ->]|(ns' & svc' & rest & -> & ->)]];
        exists ((ns, (svc, e)) :: fails).
      * by left.
      * right. by exists ns', svc', rest.
    + exists []. right. exists ns, svc, projects.
      by rewrite urlOf_run.
Qed.

Lemma FindServiceInEveryNamespace_cases name tr :
  let out := FindServiceInEveryNamespace env name tr in
  let ns0 := DefaultNamespace env tr in
  exists svc0 err0,
    let pre := [EvDefaultNamespace ns0; EvServicesGet ns0 name svc0 err0] in
    match err0 with
    | None => out = (urlResult name svc0, pre)
    | Some _ =>
        (exists listed err rest,
            out.2 = pre ++ [EvTypeOfMaster false; EvNamespacesList listed err]
                        ++ rest
            /\ match err, listed with
               | Some _, _ => rest = [] /\ out.1 = Ok (EmptyString, err)
               | None, None => rest = [] /\ out.1 = Stop Panic
               | None, Some [] =>
                   rest = []
                   /\ out.1 = Ok (EmptyString, Some (notFoundAnywhere name))
               | None, Some (ns :: _) =>
                   exists svc e,
                     rest = [EvServicesGet ns name svc e]
                     /\ out.1 = urlResult name svc
               end)
        \/ (exists listed err rest,
              out.2 = pre ++ [EvTypeOfMaster true; EvProjectsList listed err]
                          ++ rest
              /\ match err, listed with
                 | Some _, _ => rest = [] /\ out.1 = Ok (EmptyString, err)
                 | None, None => rest = [] /\ out.1 = Stop Panic
                 | None, Some projects =>
                     exists fails,
                       (rest = map (failedLookup name) fails
                        /\ projects = map fst fails
                        /\ out.1 = Ok (EmptyString, Some (notFoundAnywhere name)))
                       \/ (exists ns svc tail,
                             rest = map (failedLookup name) fails
                                    ++ [EvServicesGet ns name svc None]
                             /\ projects = map fst fails ++ ns :: tail
                             /\ out.1 = urlResult name svc)
                 end)
    end.
Proof.
  cbn zeta.
  unfold FindServiceInEveryNamespace, servicesGet, deref, bind, call, ret, halt.
  cbn beta.
  destruct (ServicesGet env _ _ name) as [svc0 err0]. exists svc0, err0.
  cbn [fst snd]. destruct err0 as [e0|].
  2:{ by rewrite urlOf_run. }
  destruct (TypeOfMasterIsOpenShift env _).
  - right.
    destruct (ProjectsList env _) as [listed err]. exists listed, err.
    cbn [fst snd]. destruct err as [e|]; [by exists []|].
    destruct listed as [projects|]; [|by exists []].
    match goal with
    | |- context [findInProjects env name projects ?t] =>
        destruct (findInProjects_run name projects t)
          as [fails [[-> ->]|(ns & svc & rest & -> & ->)]]
    end.
    + exists (map (failedLookup name) fails). split; [done|].
      exists fails. by left.
    + eexists. split; [reflexivity|]. exists fails. right.
      by exists ns, svc, rest.
  - left.
    destruct (NamespacesList env _) as [listed err]. exists listed, err.
    cbn [fst snd]. destruct err as [e|]; [by exists []|].
    destruct listed as [[|ns namespaces]|]; [by exists []| |by exists []].
    cbn [findInNamespaces]. unfold servicesGet, bind, call. cbn beta.
    destruct (ServicesGet env _ ns name) as [svc e]. cbn [fst snd].
    rewrite urlOf_run. eexists. split; [reflexivity|]. by exists svc, e.
Qed.

Lemma urlResult_cases name svc :
  match urlResult name svc with
  | Ok (url, None) =>
      url <> EmptyString
      /\ exists s, svc = Some s /\ url = annotation s exposeURLAnnotation
  | Ok (url, Some _) => url = EmptyString
  | Stop h => h = Panic
  end.
Proof.
  destruct svc as [s|]; [|done]. unfold urlResult.
  destruct (String.eqb (annotation s exposeURLAnnotation) EmptyString) eqn:E;
    [done|].
  split; [|by exists s]. intros Hurl. by rewrite Hurl in E.
Qed.

Lemma failedLookups_reads name fails :
  omap serviceGet (map (failedLookup name) fails) = map fst fails
  /\ omap found (map (failedLookup name) fails) = []
  /\ omap namespacesListed (map (failedLookup name) fails) = []
  /\ omap projectsListed (map (failedLookup name) fails) = [].
Proof.
  induction fails as [|[ns [svc e]] fails (IH1 & IH2 & IH3 & IH4)]; [done|].
  cbn [map]. unfold failedLookup at 1 3 5 7. cbn [fst snd].
  split_and!; simpl; by f_equal.
Qed.

Lemma listed_elem {B} (f : Event -> option B) ev b (evs : list Event) :
  ev ∈ evs -> f ev = Some b -> b ∈ omap f evs.
Proof. intros Hin Hf. apply list_elem_of_omap. by exists ev. Qed.

Ltac not_listed H :=
  repeat match goal with
         | Hr : _ /\ _ |- _ => destruct Hr as [-> ->]
         end;
  rewrite ?omap_app in H; simpl in H; rewrite ?app_nil_r in H;
  by apply elem_of_nil in H.

(** X20: on a master that is not OpenShift, [FindServiceInEveryNamespace]
    does not search every namespace.  When the service is not in the
    default namespace and the namespaces are listed, the only other
    namespace looked at is the first of the list: the result is made
    from what that lookup returned, whether it failed or not, and the
    namespaces after it are never searched. *)
Theorem FindServiceInEveryNamespace_kubernetes name tr namespaces :
  let out := FindServiceInEveryNamespace env name tr in
  EvNamespacesList (Some namespaces) None ∈ out.2 ->
  omap serviceGet out.2 = DefaultNamespace env tr :: take 1 namespaces
  /\ match namespaces with
     | [] => out.1 = Ok (EmptyString, Some (notFoundAnywhere name))
     | ns :: _ =>
         exists svc e,
           last out.2 = Some (EvServicesGet ns name svc e)
           /\ out.1 = urlResult name svc
     end.
Proof.
  cbn zeta. intros Hin.
  apply (listed_elem namespacesListed _ namespaces) in Hin; [|done].
  destruct (FindServiceInEveryNamespace_cases name tr) as (svc0 & err0 & Hrun).
  cbn zeta in Hrun.
  destruct (FindServiceInEveryNamespace env name tr) as [res evs].
  cbn [fst snd] in *. destruct err0 as [e0|].
  2:{ injection Hrun as -> ->. not_listed Hin. }
  destruct Hrun as [(listed & err & rest & -> & Hrest)
                   |(listed & err & rest & -> & Hrest)].
  - destruct err as [e|]; [destruct listed; not_listed Hin|].
    destruct listed as [[|ns listed]|].
    + destruct Hrest as [-> ->]. simpl in Hin.
      apply list_elem_of_singleton in Hin as ->. by split.
    + destruct Hrest as (svc & e & -> & ->). simpl in Hin.
      apply list_elem_of_singleton in Hin as ->.
      split; [done|]. by exists svc, e.
    + not_listed Hin.
  - exfalso.
    destruct err as [e|]; [destruct listed; not_listed Hin|].
    destruct listed as [projects|]; [|not_listed Hin].
    destruct Hrest as [fails Hfails].
    destruct (failedLookups_reads name fails) as (_ & _ & Hn & _).
    destruct Hfails as [(-> & _)|(ns & svc & tail & -> & _)];
      rewrite ?omap_app, ?Hn in Hin; not_listed Hin.
Qed.

(** X21: on an OpenShift master, when the service is not in the default
    namespace, the projects are searched in the order of the list and
    the search stops at the first project in which the lookup of the
    service succeeds: the projects before it were looked at and failed,
    the ones after it are not looked at, and the result is made from
    that service alone, also when it has no URL annotation.  Only when
    the lookup fails in every project is the service reported as found
    nowhere. *)
Theorem FindServiceInEveryNamespace_openshift name tr projects :
  let out := FindServiceInEveryNamespace env name tr in
  EvProjectsList (Some projects) None ∈ out.2 ->
  exists searched,
    searched `prefix_of` projects
    /\ omap serviceGet out.2 = DefaultNamespace env tr :: searched
    /\ match omap found out.2 with
       | [] =>
           searched = projects
           /\ out.1 = Ok (EmptyString, Some (notFoundAnywhere name))
       | [ns] =>
           last searched = Some ns
           /\ exists svc,
               last out.2 = Some (EvServicesGet ns name svc None)
               /\ out.1 = urlResult name svc
       | _ => False
       end.
Proof.
  cbn zeta. intros Hin.
  apply (listed_elem projectsListed _ projects) in Hin; [|done].
  destruct (FindServiceInEveryNamespace_cases name tr) as (svc0 & err0 & Hrun).
  cbn zeta in Hrun.
  destruct (FindServiceInEveryNamespace env name tr) as [res evs].
  cbn [fst snd] in *. destruct err0 as [e0|].
  2:{ injection Hrun as -> ->. not_listed Hin. }
  destruct Hrun as [(listed & err & rest & -> & Hrest)
                   |(listed & err & rest & -> & Hrest)].
  - exfalso. destruct err as [e|]; [destruct listed; not_listed Hin|].
    destruct listed as [[|ns listed]|]; [not_listed Hin| |not_listed Hin].
    destruct Hrest as (svc & e & -> & ->). not_listed Hin.
  - destruct err as [e|]; [destruct listed; not_listed Hin|].
    destruct listed as [listed|]; [|not_listed Hin].
    destruct Hrest as [fails Hfails].
    destruct (failedLookups_reads name fails) as (Hs & Hf & _ & Hp).
    destruct Hfails as [(-> & -> & ->)|(ns & svc & tail & -> & -> & ->)].
    + rewrite !omap_app, Hp in Hin. simpl in Hin.
      apply list_elem_of_singleton in Hin as ->.
      exists (map fst fails). rewrite !omap_app, Hs, Hf. by split_and!.
    + rewrite !omap_app, Hp in Hin. simpl in Hin.
      apply list_elem_of_singleton in Hin as ->.
      exists (map fst fails ++ [ns]). rewrite !omap_app, Hs, Hf.
      split; [by exists tail; rewrite <- app_assoc|]. split; [done|].
      simpl. split; [by rewrite last_snoc|].
      exists svc. split; [|done].
      by rewrite ?app_comm_cons, last_snoc.
Qed.

(** X22: what [FindServiceInEveryNamespace] returns.  A URL comes
    without error, is never empty, and is the URL annotation of the
    service that the last lookup of the run returned; an error comes
    with the empty URL; a run that does not return has panicked on a
    [nil] answer of the cluster. *)
Theorem FindServiceInEveryNamespace_result name tr :
  let out := FindServiceInEveryNamespace env name tr in
  match out.1 with
  | Ok (url, None) =>
      url <> EmptyString
      /\ exists ns svc e,
          last out.2 = Some (EvServicesGet ns name (Some svc) e)
          /\ url = annotation svc exposeURLAnnotation
  | Ok (url, Some _) => url = EmptyString
  | Stop h => h = Panic
  end.
Proof.
  cbn zeta.
  destruct (FindServiceInEveryNamespace_cases name tr) as (svc0 & err0 & Hrun).
  cbn zeta in Hrun.
  destruct (FindServiceInEveryNamespace env name tr) as [res evs].
  cbn [fst snd] in *. destruct err0 as [e0|].
  2:{ injection Hrun as -> ->. pose proof (urlResult_cases name svc0) as Hu.
      destruct (urlResult name svc0) as [[url [e|]]|h]; [done| |done].
      destruct Hu as (? & s & -> & ->). split; [done|]. by eexists _, _, _. }
  assert (forall ns svc e pre,
             evs = pre ++ [EvServicesGet ns name svc e] ->
             res = urlResult name svc ->
             match res with
             | Ok (url, None) =>
                 url <> EmptyString
                 /\ exists ns svc e,
                     last evs = Some (EvServicesGet ns name (Some svc) e)
                     /\ url = annotation svc exposeURLAnnotation
             | Ok (url, Some _) => url = EmptyString
             | Stop h => h = Panic
             end) as Hfound.
  { intros ns svc e pre -> ->. pose proof (urlResult_cases name svc) as Hu.
    destruct (urlResult name svc) as [[url [e'|]]|h]; [done| |done].
    destruct Hu as (? & s & -> & ->). split; [done|].
    exists ns, s, e. by rewrite last_snoc. }
  destruct Hrun as [(listed & err & rest & -> & Hrest)
                   |(listed & err & rest & -> & Hrest)].
  - destruct err as [e|]; [by destruct Hrest as [-> ->]|].
    destruct listed as [[|ns listed]|]; [by destruct Hrest as [-> ->]|
                                         |by destruct Hrest as [-> ->]].
    destruct Hrest as (svc & e & -> & Hres).
    apply (Hfound ns svc e ([EvDefaultNamespace (DefaultNamespace env tr);
                             EvServicesGet (DefaultNamespace env tr) name svc0
                               (Some e0)]
                            ++ [EvTypeOfMaster false;
                                EvNamespacesList (Some (ns :: listed)) None]));
      [by rewrite <- !app_assoc|done].
  - destruct err as [e|]; [by destruct Hrest as [-> ->]|].
    destruct listed as [listed|]; [|by destruct Hrest as [-> ->]].
    destruct Hrest as [fails [(-> & -> & ->)|(ns & svc & tail & -> & -> & Hres)]];
      [done|].
    apply (Hfound ns svc None
             (([EvDefaultNamespace (DefaultNamespace env tr);
                EvServicesGet (DefaultNamespace env tr) name svc0 (Some e0)]
               ++ [EvTypeOfMaster true;
                   EvProjectsList (Some (map fst fails ++ ns :: tail)) None])
              ++ map (failedLookup name) fails));
      [by rewrite <- !app_assoc|done].
Qed.

(** *** [GetServiceURL] and [FindServiceURL] *)

(** X23: [FindServiceURL] without retry against [GetServiceURL].  When
    the lookup of the service succeeds the two do the same and return
    the same.  When it fails, [GetServiceURL] returns the empty string,
    whereas [FindServiceURL] reports the error and goes on: it returns
    the URL annotation of whatever service came with the error, and
    panics when none came. *)
Theorem FindServiceURL_GetServiceURL ns name tr :
  let find := FindServiceURL env Sprintf0 ns name false tr in
  let get := GetServiceURL env ns name tr in
  match ServicesGet env tr ns name with
  | (svc, None) => find = get
  | (svc, Some e) =>
      let lookup := EvServicesGet ns name svc (Some e) in
      let report :=
        EvPrint LError ("No service " +:+ name +:+ " found " +:+ e +:+ nl) in
      get = (Ok EmptyString, [lookup])
      /\ find = (match svc with
                 | Some svc => Ok (annotation svc exposeURLAnnotation)
                 | None => Stop Panic
                 end, [lookup; report])
  end.
Proof.
  cbn zeta.
  unfold FindServiceURL, GetServiceURL, servicesGet, utilErrorf, deref,
    bind, call, emit, ret, halt, annotation.
  cbn beta iota. rewrite !app_nil_r.
  destruct (ServicesGet env tr ns name) as [svc [e|]]; cbn [fst snd app].
  - split; [done|]. destruct svc as [svc|]; [|done]. cbn [app].
    rewrite length_pos.
    destruct (Annotations svc) as [ann|]; [|done].
    by destruct (default EmptyString (ann !! exposeURLAnnotation)).
  - destruct svc as [svc|]; [|done]. cbn [app].
    rewrite length_pos.
    destruct (Annotations svc) as [ann|]; [|done].
    by destruct (default EmptyString (ann !! exposeURLAnnotation)).
Qed.

(** *** [openService] *)

Lemma openLoop_run name printURL items tr :
  openLoop name printURL items tr =
    match filter (fun service => Name service = name) items with
    | [] => (Ok false, [])
    | service :: _ =>
        (Ok true, shown printURL (annotation service exposeURLAnnotation))
    end.
Proof.
  revert tr. induction items as [|service rest IH]; intros tr; [done|].
  cbn [openLoop]. rewrite filter_cons.
  destruct (String.eqb_spec name (Name service)) as [Heq|Hne].
  - rewrite decide_True by done. unfold shown, utilSuccessf, bind, emit, ret.
    by destruct printURL.
  - rewrite decide_False by done. apply IH.
Qed.

Lemma omap_quiet {B} (f : Event -> option B) (evs : list Event) :
  Forall (fun ev => f ev = None) evs -> omap f evs = [].
Proof.
  induction 1 as [|ev evs Hev _ IH]; [done|]. simpl. by rewrite Hev.
Qed.

Lemma Failures_quiet (P : Event -> Prop) callback d tr msgs evs :
  P (EvSleep d) ->
  (forall tr', Forall P (callback tr').2) ->
  Failures callback d tr msgs evs ->
  Forall P evs.
Proof.
  intros Hs Hq. induction 1 as [|tr msg evs msgs evs' Hc _ IH]; [done|].
  pose proof (Hq tr) as Hq'. rewrite Hc in Hq'.
  apply Forall_app. split; [done|]. by constructor.
Qed.

Lemma waitFor_quiet (P : Event -> Prop) what name callback tr :
  (forall d, P (EvSleep d)) ->
  (forall msg, P (EvPrint LError msg)) ->
  (forall tr', Forall P (callback tr').2) ->
  Forall P (waitFor Sprintf0 what name callback tr).2.
Proof.
  intros Hs Hp Hq.
  pose proof (waitFor_cases what name callback tr) as Hw. cbn zeta in Hw.
  destruct (RetryAfter_spec 1200 callback tenSeconds tr)
    as (msgs & evs & Hf & _ & Hout).
  pose proof (Failures_quiet P _ _ _ _ _ (Hs _) Hq Hf) as Hevs.
  pose proof (Hq (tr ++ evs)) as Hlast.
  destruct (RetryAfter Sprintf0 1200 callback tenSeconds tr)
    as [[[e|]|h] evs2]; cbn [fst snd] in *; rewrite Hw; cbn [snd].
  - destruct Hout as (_ & _ & -> & _). apply Forall_app. split; [done|].
    by constructor.
  - destruct Hout as [[_ ->]|(_ & evs' & Hc & ->)]; [done|].
    rewrite Hc in Hlast. by apply Forall_app.
  - destruct Hout as (_ & evs' & Hc & ->).
    rewrite Hc in Hlast. by apply Forall_app.
Qed.

(** The events that show a URL or list the services. *)
Lemma CheckExternalService_quiet ns name tr :
  Forall (fun ev => opened ev = None /\ servicesListed ev = None)
         (CheckExternalService env ns name tr).2.
Proof.
  unfold CheckExternalService, servicesGet, deref.
  unfold bind at 1. unfold call at 1.
  destruct (ServicesGet env tr ns name) as [svc [e|]]; cbn [fst snd].
  { unfold ret. by repeat constructor. }
  destruct svc as [svc|].
  2:{ unfold bind, halt. by repeat constructor. }
  unfold bind at 1. unfold ret at 1.
  destruct (String.eqb (annotation svc exposeURLAnnotation) EmptyString).
  { unfold ret. by repeat constructor. }
  pose proof (CheckService_cases ns name
                ((tr ++ [EvServicesGet ns name (Some svc) None]) ++ [])) as Hc.
  cbn zeta in Hc. unfold CheckService in Hc.
  destruct (bind _ _ _) as [res evs].
  cbn [app snd]. constructor; [done|].
  destruct Hc as [(msg & Hc)|[(endpoint & e & msg & Hc)|[Hc|[(endpoint & _ & Hc)
                 |(endpoint & msg & _ & Hc)]]]];
    injection Hc as _ ->; by repeat constructor.
Qed.

Lemma openService_cases ns name printURL (retry : bool) tr :
  let w := (if retry
            then waitFor Sprintf0
                   "Could not find finalized endpoint being pointed to by "
                   name (CheckExternalService env ns name)
            else (ret tt : Cmd unit)) tr in
  let out := openService env Sprintf0 ns name printURL retry tr in
  Forall (fun ev => opened ev = None /\ servicesListed ev = None) w.2
  /\ match w.1 with
     | Stop h => out = (Stop h, w.2)
     | Ok _ =>
         exists svcs err report,
           Forall (fun ev => opened ev = None /\ servicesListed ev = None)
                  report
           /\ match svcs with
              | None =>
                  out = (Stop Panic,
                         w.2 ++ [EvServicesList ns None err] ++ report)
              | Some items =>
                  out = (Ok tt,
                         (w.2 ++ [EvServicesList ns (Some items) err] ++ report)
                         ++ match filter (fun service => Name service = name)
                                         items with
                            | [] =>
                                [EvPrint LError
                                   ("No service " +:+ name +:+ " in namespace "
                                    +:+ ns +:+ nl)]
                            | service :: _ =>
                                shown printURL
                                      (annotation service exposeURLAnnotation)
                            end)
              end
     end.
Proof.
  assert (forall evs, exists svcs err report,
    Forall (fun ev => opened ev = None /\ servicesListed ev = None) report
    /\ match svcs with
       | None =>
           (let (r, evs') :=
              (do '(svcs, err) <- call (fun tr => ServicesList env tr ns)
                                       (fun r => EvServicesList ns r.1 r.2);
               exec match err with
                    | Some msg =>
                        utilErrorf ("No services found " +:+ msg +:+ nl)
                    | None => ret tt
                    end;
               do items <- deref svcs;
               do found <- openLoop name printURL items;
               if negb found
               then utilErrorf ("No service " +:+ name +:+ " in namespace "
                                +:+ ns +:+ nl)
               else ret tt)%run (tr ++ evs) in
            (r, evs ++ evs'))
           = (Stop Panic, evs ++ [EvServicesList ns None err] ++ report)
       | Some items =>
           (let (r, evs') :=
              (do '(svcs, err) <- call (fun tr => ServicesList env tr ns)
                                       (fun r => EvServicesList ns r.1 r.2);
               exec match err with
                    | Some msg =>
                        utilErrorf ("No services found " +:+ msg +:+ nl)
                    | None => ret tt
                    end;
               do items <- deref svcs;
               do found <- openLoop name printURL items;
               if negb found
               then utilErrorf ("No service " +:+ name +:+ " in namespace "
                                +:+ ns +:+ nl)
               else ret tt)%run (tr ++ evs) in
            (r, evs ++ evs'))
           = (Ok tt,
              (evs ++ [EvServicesList ns (Some items) err] ++ report)
              ++ match filter (fun service => Name service = name) items with
                 | [] =>
                     [EvPrint LError
                        ("No service " +:+ name +:+ " in namespace "
                         +:+ ns +:+ nl)]
                 | service :: _ =>
                     shown printURL (annotation service exposeURLAnnotation)
                 end)
       end) as Htail.
  { intros evs.
    unfold deref, utilErrorf, bind, call, emit, ret, halt. cbn beta.
    destruct (ServicesList env (tr ++ evs) ns) as [svcs err]. cbn [fst snd].
    exists svcs, err,
      (match err with
       | Some msg => [EvPrint LError ("No services found " +:+ msg +:+ nl)]
       | None => []
       end).
    split; [destruct err; by repeat constructor|].
    destruct svcs as [items|].
    2:{ by destruct err. }
    destruct err as [msg|]; cbn [app]; rewrite openLoop_run;
      destruct (filter _ items) as [|service rest]; cbn [negb app];
      by rewrite <- ?app_assoc, ?app_nil_r. }
  cbn zeta. destruct retry.
  - split.
    { apply waitFor_quiet; [done|done|]. apply CheckExternalService_quiet. }
    unfold openService. rewrite svc_bind_run.
    destruct (waitFor Sprintf0 _ name _ tr) as [[[]|h] evs]; cbn [fst snd];
      [|done].
    apply Htail.
  - split; [by constructor|].
    unfold openService. rewrite svc_bind_run. unfold ret at 1. cbn [fst snd].
    apply (Htail []).
Qed.

(** X24: which service [openService] shows.  When the services of the
    namespace were listed, the run returns; if none of them has the
    name asked for, nothing is opened and the run ends with the message
    that there is no such service; otherwise the run ends by showing
    the URL annotation of the first service of that name in the list,
    printed or opened in the browser according to [printURL], and
    nothing else was opened before.  The URL is not looked at: it is
    shown even when the annotation is missing and the URL empty. *)
Theorem openService_shows_first ns name printURL retry tr items err :
  let out := openService env Sprintf0 ns name printURL retry tr in
  EvServicesList ns (Some items) err ∈ out.2 ->
  out.1 = Ok tt
  /\ match filter (fun service => Name service = name) items with
     | [] =>
         omap opened out.2 = []
         /\ last out.2
            = Some (EvPrint LError ("No service " +:+ name +:+ " in namespace "
                                    +:+ ns +:+ nl))
     | service :: _ =>
         exists pre,
           out.2 = pre ++ shown printURL (annotation service exposeURLAnnotation)
           /\ omap opened pre = []
     end.
Proof.
  cbn zeta. intros Hin.
  apply (listed_elem servicesListed _ items) in Hin; [|done].
  destruct (openService_cases ns name printURL retry tr) as [Hq Hrun].
  cbn zeta in Hq, Hrun.
  match type of Hq with
  | context [(if retry then ?a else ?b) tr] =>
      destruct ((if retry then a else b) tr) as [[[]|h] evs]
  end; cbn [fst snd] in *.
  2:{ rewrite Hrun in Hin. cbn [snd] in Hin.
      rewrite omap_quiet in Hin; [by apply elem_of_nil in Hin|].
      eapply Forall_impl; [exact Hq|]. by intros ev [_ ?]. }
  destruct Hrun as (svcs & err' & report & Hreport & Hrun).
  assert (omap servicesListed evs = []) as Hl1.
  { apply omap_quiet. eapply Forall_impl; [exact Hq|]. by intros ev [_ ?]. }
  assert (omap servicesListed report = []) as Hl2.
  { apply omap_quiet. eapply Forall_impl; [exact Hreport|]. by intros ev [_ ?]. }
  assert (omap opened evs = []) as Ho1.
  { apply omap_quiet. eapply Forall_impl; [exact Hq|]. by intros ev [? _]. }
  assert (omap opened report = []) as Ho2.
  { apply omap_quiet. eapply Forall_impl; [exact Hreport|]. by intros ev [? _]. }
  destruct svcs as [items'|]; rewrite Hrun in *; cbn [fst snd] in *.
  2:{ rewrite !omap_app, Hl1, Hl2 in Hin. by apply elem_of_nil in Hin. }
  assert (items' = items) as ->.
  { rewrite !omap_app, Hl1, Hl2 in Hin. cbn [omap servicesListed app] in Hin.
    destruct (filter _ items') as [|service rest]; [|destruct printURL];
      simpl in Hin; by apply list_elem_of_singleton in Hin. }
  split; [done|].
  destruct (filter _ items) as [|service rest].
  - split; [|by rewrite last_snoc].
    by rewrite !omap_app, Ho1, Ho2.
  - eexists. split; [reflexivity|]. by rewrite !omap_app, Ho1, Ho2.
Qed.

End Props.

(** *** The theorems on scripted clusters *)

Lemma RetryAfter_sleeps_witness :
  let out := RetryAfter (fun format => format) 5 (upAfter 2) tenSeconds [] in
  out.1 = Ok None
  /\ exists k,
      sleeps out.2 = replicate k tenSeconds /\ k <= Z.to_nat 5 /\
      (forall e, out.1 = Ok (Some e) -> k = Z.to_nat 5 /\ (0 < 5)%Z) /\
      (out.1 = Ok None -> (0 < 5)%Z -> k < Z.to_nat 5).
Proof.
  split; [reflexivity|].
  apply (RetryAfter_sleeps (fun format => format) 5 (upAfter 2) tenSeconds []).
  intros tr'. reflexivity.
Defined.

Lemma CheckExternalService_checks_service_witness :
  CheckExternalService warmingUp "default" "gogs" [] =
    (Ok (Some notReadyYet),
     [EvServicesGet "default" "gogs" (Some (exposed "http://gogs.example")) None;
      EvEndpoints "default" false;
      EvEndpointsGet "default" "gogs" (Some {| Subsets := [] |}) None;
      EvStderr "."]).
Proof.
  rewrite (CheckExternalService_checks_service warmingUp "default" "gogs" []
             (exposed "http://gogs.example") eq_refl).
  reflexivity.
Defined.

Lemma FindServiceInEveryNamespace_kubernetes_witness :
  let env := hosting false ["kube-system"; "fabric8"]
               [("fabric8", exposed "http://gogs.fabric8.example")] in
  let out := FindServiceInEveryNamespace env "gogs" [] in
  EvNamespacesList (Some ["kube-system"; "fabric8"]) None ∈ out.2
  /\ omap serviceGet out.2 = ["default"; "kube-system"]
  /\ out.1 = Ok (EmptyString, Some (noURLAnnotation "gogs")).
Proof.
  cbn zeta.
  assert (EvNamespacesList (Some ["kube-system"; "fabric8"]) None
          ∈ (FindServiceInEveryNamespace
               (hosting false ["kube-system"; "fabric8"]
                  [("fabric8", exposed "http://gogs.fabric8.example")])
               "gogs" []).2) as Hin.
  { vm_compute. do 3 apply list_elem_of_further. apply list_elem_of_here. }
  split; [exact Hin|].
  split; [|reflexivity].
  exact (proj1 (FindServiceInEveryNamespace_kubernetes _ "gogs" [] _ Hin)).
Defined.

Lemma FindServiceInEveryNamespace_openshift_witness :
  let env := hosting true ["myproject"; "fabric8"; "openshift"]
               [("fabric8", exposed "http://gogs.fabric8.example")] in
  let out := FindServiceInEveryNamespace env "gogs" [] in
  EvProjectsList (Some ["myproject"; "fabric8"; "openshift"]) None ∈ out.2
  /\ out.1 = Ok ("http://gogs.fabric8.example", None)
  /\ exists searched,
      searched `prefix_of` ["myproject"; "fabric8"; "openshift"]
      /\ omap serviceGet out.2 = "default" :: searched
      /\ omap found out.2 = ["fabric8"].
Proof.
  cbn zeta.
  assert (EvProjectsList (Some ["myproject"; "fabric8"; "openshift"]) None
          ∈ (FindServiceInEveryNamespace
               (hosting true ["myproject"; "fabric8"; "openshift"]
                  [("fabric8", exposed "http://gogs.fabric8.example")])
               "gogs" []).2) as Hin.
  { vm_compute. do 3 apply list_elem_of_further. apply list_elem_of_here. }
  split; [exact Hin|].
  split; [reflexivity|].
  destruct (FindServiceInEveryNamespace_openshift _ "gogs" [] _ Hin)
    as (searched & Hpre & Hs & _).
  exists searched. split; [exact Hpre|]. split; [exact Hs|reflexivity].
Defined.

Lemma WaitForExternalIPAddress_result_witness :
  let out := WaitForExternalIPAddress flapping (fun format => format)
               "default" "gogs" [] in
  last out.2 = Some (EvServicesGet "default" "gogs" (Some (balanced [])) None)
  /\ out.1 = Stop Panic.
Proof.
  cbn zeta.
  pose proof (WaitForExternalIPAddress_result flapping (fun format => format)
                "default" "gogs" []) as H.
  cbn zeta in H.
  assert (last (WaitForExternalIPAddress flapping (fun format => format)
                  "default" "gogs" []).2
          = Some (EvServicesGet "default" "gogs" (Some (balanced [])) None))
    as Hlast by (vm_compute; reflexivity).
  rewrite Hlast in H. split; [exact Hlast|]. exact (proj2 (proj2 H)).
Defined.

Lemma openService_shows_first_witness :
  let env := hosting false []
               [("default", exposed "http://gogs.fabric8.example")] in
  let out := openService env (fun format => format)
               "default" "gogs" false true [] in
  EvServicesList "default" (Some [exposed "http://gogs.fabric8.example"]) None
    ∈ out.2
  /\ out.1 = Ok tt
  /\ omap opened out.2 = ["http://gogs.fabric8.example"].
Proof.
  cbn zeta.
  assert (EvServicesList "default"
            (Some [exposed "http://gogs.fabric8.example"]) None
          ∈ (openService
               (hosting false []
                  [("default", exposed "http://gogs.fabric8.example")])
               (fun format => format) "default" "gogs" false true []).2) as Hin.
  { vm_compute. do 3 apply list_elem_of_further. apply list_elem_of_here. }
  split; [exact Hin|]. split; [|by vm_compute].
  exact (proj1 (openService_shows_first _ _ "default" "gogs" false true [] _ _ Hin)).
Defined.

End ServiceProps.

(** ** Properties of [uninstall] *)

Module UninstallProps.
Import Run Uninstall.

Section Props.

Variable env : Env.
Variable Unmarshal : string -> list Namespace.

Lemma bind_run {E A B} (m : M E A) (f : A -> M E B) tr :
  bind m f tr =
    match m tr with
    | (Ok a, evs) => let (r, evs') := f a (tr ++ evs) in (r, evs ++ evs')
    | (Stop h, evs) => (Stop h, evs)
    end.
Proof. reflexivity. Qed.

Lemma uninstall_CheckErr_run err tr :
  CheckErr err tr =
    match err with
    | Some msg => (Stop (Exit 1), [EvCheckErr msg])
    | None => (Ok tt, [])
    end.
Proof. by destruct err. Qed.

Lemma deleteLoop_run confirm namespaces tr :
  let out := deleteLoop env confirm namespaces tr in
  let succeeded := map (fun args => EvCommand "gofabric8" args None) in
  out = (Ok tt, succeeded (plan confirm namespaces))
  \/ exists pre args msg post,
      plan confirm namespaces = pre ++ args :: post
      /\ out = (Stop (Exit 1),
                succeeded pre
                ++ [EvCommand "gofabric8" args (Some msg); EvCheckErr msg]).
Proof.
  cbn zeta. revert tr. induction namespaces as [|value rest IH]; intros tr.
  - by left.
  - cbn [deleteLoop]. unfold plan in *. rewrite filter_cons.
    destruct (String.eqb_spec (Type' value) "user") as [Heq|Hne].
    + rewrite decide_True by done. cbn [map].
      rewrite bind_run, bind_run. unfold call. cbn beta iota zeta.
      destruct (runCommand env tr "gofabric8" (deleteTenant confirm value))
        as [msg|] eqn:Hrun; rewrite uninstall_CheckErr_run; cbn [app].
      * right. by exists [], (deleteTenant confirm value), msg,
                 (map (deleteTenant confirm)
                      (filter (fun value => Type' value = "user") rest)).
      * destruct (IH (tr ++ [EvCommand "gofabric8"
                               (deleteTenant confirm value) None]))
          as [->|(pre & args & msg & post & -> & ->)].
        { by left. }
        right. by exists (deleteTenant confirm value :: pre), args, msg, post.
    + rewrite decide_False by done.
      rewrite bind_run. unfold ret. cbn beta iota zeta. rewrite !app_nil_r.
      destruct (IH tr) as [->|(pre & args & msg & post & -> & ->)].
      { by left. }
      right. by exists pre, args, msg, post.
Qed.

Lemma deleteTenants_cases confirm tr :
  let out := deleteTenants env Unmarshal confirm tr in
  let succeeded := map (fun args => EvCommand "gofabric8" args None) in
  (exists started msg,
      Forall (fun ev => command ev = None /\ bodyRead ev = None
                        /\ ev <> EvClose) started
      /\ out = (Stop (Exit 1), started ++ [EvCheckErr msg]))
  \/ exists started body,
      Forall (fun ev => command ev = None /\ bodyRead ev = None
                        /\ ev <> EvClose) started
      /\ ((exists msg,
              out = (Stop (Exit 1),
                     started ++ [EvReadAll body None] ++ [EvCheckErr msg]))
          \/ out = (Ok None,
                    started ++ [EvReadAll body None]
                    ++ succeeded (plan confirm (Unmarshal body)) ++ [EvClose])
          \/ exists pre args msg post,
              plan confirm (Unmarshal body) = pre ++ args :: post
              /\ out = (Stop (Exit 1),
                        started ++ [EvReadAll body None]
                        ++ succeeded pre
                        ++ [EvCommand "gofabric8" args (Some msg)]
                        ++ [EvCheckErr msg])).
Proof.
  cbn zeta.
  destruct (deleteTenants env Unmarshal confirm tr) as [res evs] eqn:Hrun.
  unfold deleteTenants in Hrun.
  rewrite bind_run in Hrun. unfold call at 1 in Hrun. cbn beta iota zeta in Hrun.
  destruct (ClientConfig env tr) as [BearerToken [e|]]; cbn [fst snd] in Hrun;
    rewrite bind_run, uninstall_CheckErr_run in Hrun; cbn [app] in Hrun.
  { injection Hrun as <- <-.
    left. exists [EvClientConfig BearerToken (Some e)], e.
    split; [by repeat constructor|done]. }
  rewrite bind_run in Hrun. unfold call at 1 in Hrun. cbn beta iota zeta in Hrun.
  destruct (NewRequest env _ "GET" url) as [e|]; cbn [fst snd] in Hrun;
    rewrite bind_run, uninstall_CheckErr_run in Hrun; cbn [app] in Hrun.
  { injection Hrun as <- <-.
    left. exists [EvClientConfig BearerToken None;
                  EvNewRequest "GET" url (Some e)], e.
    split; [by repeat constructor|done]. }
  rewrite bind_run in Hrun. unfold call at 1 in Hrun. cbn beta iota zeta in Hrun.
  destruct (Do env _ url _) as [StatusCode [e|]]; cbn [fst snd] in Hrun;
    rewrite bind_run, uninstall_CheckErr_run in Hrun; cbn [app] in Hrun.
  { injection Hrun as <- <-.
    left. exists [EvClientConfig BearerToken None; EvNewRequest "GET" url None;
                  EvDo url ("Bearer " +:+ BearerToken) StatusCode (Some e)], e.
    split; [by repeat constructor|done]. }
  rewrite bind_run in Hrun. unfold call at 1 in Hrun. cbn beta iota zeta in Hrun.
  destruct (ReadAll env _) as [body [e|]]; cbn [fst snd] in Hrun;
    rewrite bind_run, uninstall_CheckErr_run in Hrun; cbn [app] in Hrun.
  { injection Hrun as <- <-.
    left. exists [EvClientConfig BearerToken None; EvNewRequest "GET" url None;
                  EvDo url ("Bearer " +:+ BearerToken) StatusCode None;
                  EvReadAll body (Some e)], e.
    split; [by repeat constructor|done]. }
  right.
  exists [EvClientConfig BearerToken None; EvNewRequest "GET" url None;
          EvDo url ("Bearer " +:+ BearerToken) StatusCode None], body.
  split; [by repeat constructor|].
  rewrite bind_run in Hrun.
  destruct (300 <=? StatusCode)%Z; rewrite ?uninstall_CheckErr_run in Hrun.
  { injection Hrun as <- <-. left. eexists. reflexivity. }
  unfold ret at 1 in Hrun. cbn [app] in Hrun. rewrite bind_run in Hrun.
  match type of Hrun with
  | context [deleteLoop env confirm (Unmarshal body) ?t] =>
      destruct (deleteLoop_run confirm (Unmarshal body) t)
        as [Hloop|(pre & args & msg & post & Hplan & Hloop)];
      rewrite Hloop in Hrun
  end.
  - right; left. unfold bind, emit, ret in Hrun. cbn [app] in Hrun.
    by injection Hrun as <- <-.
  - right; right. exists pre, args, msg, post. split; [done|].
    injection Hrun as <- <-. cbn [app]. by rewrite <- ?app_assoc.
Qed.

Lemma uninstall_cases confirm tr :
  let out := uninstall env Unmarshal confirm tr in
  let asked :=
    [EvWarn ("WARNING this command will delete all resources from *ALL TENANTS*"
             +:+ nl);
     EvWarn (nl +:+ "Continue [y/N]: ")] in
  (exists typed,
      confirm = false /\ typed <> "y"
      /\ out = (Ok None, asked ++ [EvScanln typed; EvWarn ("Aborted" +:+ nl)]))
  \/ exists prompt,
      (confirm = true /\ prompt = []
       \/ confirm = false /\ prompt = asked ++ [EvScanln "y"])
      /\ out = ((deleteTenants env Unmarshal confirm (tr ++ prompt)).1,
                prompt ++ (deleteTenants env Unmarshal confirm (tr ++ prompt)).2).
Proof.
  cbn zeta.
  destruct (uninstall env Unmarshal confirm tr) as [res evs] eqn:Hrun.
  unfold uninstall in Hrun. destruct confirm; cbn [negb] in Hrun.
  { right. exists []. split; [by left|]. by rewrite app_nil_r, Hrun. }
  unfold utilWarn in Hrun.
  rewrite bind_run in Hrun. unfold emit at 1 in Hrun. cbn [app] in Hrun.
  rewrite bind_run in Hrun. unfold emit at 1 in Hrun. cbn [app] in Hrun.
  rewrite bind_run in Hrun. unfold call at 1 in Hrun.
  cbn beta iota zeta in Hrun.
  match type of Hrun with
  | context [String.eqb (Scanln env ?t) "y"] =>
      destruct (String.eqb_spec (Scanln env t) "y") as [Hy|Hn]
  end; cbn [negb] in Hrun.
  - right. eexists. split; [right; split; [done|reflexivity]|].
    rewrite Hy, <- ?app_assoc in Hrun. cbn [app] in *.
    rewrite <- ?app_assoc. cbn [app].
    destruct (deleteTenants _ _ _ _). by injection Hrun as <- <-.
  - left. eexists. split; [done|]. split; [exact Hn|].
    unfold bind, emit, ret in Hrun. by injection Hrun as <- <-.
Qed.

Lemma succeeded_reads (cmds : list (list string)) :
  let evs := map (fun args => EvCommand "gofabric8" args None) cmds in
  omap command evs = cmds
  /\ omap failedCommand evs = []
  /\ omap bodyRead evs = []
  /\ EvClose ∉ evs.
Proof.
  cbn zeta. induction cmds as [|args cmds (IH1 & IH2 & IH3 & IH4)].
  - split_and!; [done..|]. apply not_elem_of_nil.
  - cbn [map]. split_and!; simpl; [by f_equal|done|done|].
    intros [?|?]%elem_of_cons; [done|by apply IH4].
Qed.

Lemma started_reads (started : list Event) :
  Forall (fun ev => command ev = None /\ bodyRead ev = None /\ ev <> EvClose)
         started ->
  omap command started = []
  /\ omap failedCommand started = []
  /\ omap bodyRead started = []
  /\ EvClose ∉ started.
Proof.
  induction 1 as [|ev evs (Hc & Hb & Hne) _ (IH1 & IH2 & IH3 & IH4)].
  - split_and!; [done..|]. apply not_elem_of_nil.
  - split_and!.
    + simpl. by rewrite Hc.
    + simpl. destruct ev as [| | | | | | |? ? [?|]|]; try done.
    + simpl. by rewrite Hb.
    + intros [?|?]%elem_of_cons; [done|by apply IH4].
Qed.

(** The runs of [uninstall], by the way they end. *)
Lemma uninstall_shape confirm tr :
  let out := uninstall env Unmarshal confirm tr in
  let succeeded := map (fun args => EvCommand "gofabric8" args None) in
  let quiet := Forall (fun ev => command ev = None /\ bodyRead ev = None
                                 /\ ev <> EvClose) in
  (exists started last, quiet started /\ last <> EvClose /\ command last = None
      /\ bodyRead last = None
      /\ (out.1 = Ok None \/ out.1 = Stop (Exit 1) /\ exists msg, last = EvCheckErr msg)
      /\ out.2 = started ++ [last])
  \/ exists started body,
      quiet started
      /\ ((exists msg,
              out = (Stop (Exit 1),
                     started ++ [EvReadAll body None] ++ [EvCheckErr msg]))
          \/ out = (Ok None,
                    started ++ [EvReadAll body None]
                    ++ succeeded (plan confirm (Unmarshal body)) ++ [EvClose])
          \/ exists pre args msg post,
              plan confirm (Unmarshal body) = pre ++ args :: post
              /\ out = (Stop (Exit 1),
                        started ++ [EvReadAll body None]
                        ++ succeeded pre
                        ++ [EvCommand "gofabric8" args (Some msg)]
                        ++ [EvCheckErr msg])).
Proof.
  cbn zeta.
  destruct (uninstall_cases confirm tr)
    as [(typed & _ & _ & ->)|(prompt & Hprompt & ->)].
  { left.
    exists [EvWarn ("WARNING this command will delete all resources from *ALL TENANTS*"
                    +:+ nl);
            EvWarn (nl +:+ "Continue [y/N]: "); EvScanln typed],
           (EvWarn ("Aborted" +:+ nl)).
    cbn [fst snd app].
    split_and!; [by repeat constructor|done|done|done|by left|reflexivity]. }
  assert (Forall (fun ev => command ev = None /\ bodyRead ev = None
                            /\ ev <> EvClose) prompt) as Hq.
  { destruct Hprompt as [[_ ->]|[_ ->]]; by repeat constructor. }
  destruct (deleteTenants_cases confirm (tr ++ prompt))
    as [(started & msg & Hs & ->)
       |(started & body & Hs & [(msg & ->)|[->|(pre & args & msg & post & Hp & ->)]])];
    cbn [fst snd].
  - left. exists (prompt ++ started), (EvCheckErr msg).
    split_and!; [by apply Forall_app|done|done|done| |by rewrite app_assoc].
    right. split; [done|by exists msg].
  - right. exists (prompt ++ started), body. split; [by apply Forall_app|].
    left. exists msg. by rewrite <- !app_assoc.
  - right. exists (prompt ++ started), body. split; [by apply Forall_app|].
    right; left. by rewrite <- !app_assoc.
  - right. exists (prompt ++ started), body. split; [by apply Forall_app|].
    right; right. exists pre, args, msg, post. split; [done|].
    by rewrite <- !app_assoc.
Qed.

Lemma omap_singleton_None {B} (f : Event -> option B) ev :
  f ev = None -> omap f [ev] = [].
Proof. intros H. simpl. by rewrite H. Qed.

Ltac shape_reads :=
  repeat match goal with
         | H : Forall _ ?started |- _ =>
             apply started_reads in H as (? & ? & ? & ?)
         end;
  repeat match goal with
         | |- context [map (fun args => EvCommand "gofabric8" args None) ?l] =>
             lazymatch goal with
             | _ : omap command
                     (map (fun args => EvCommand "gofabric8" args None) l) = l
               |- _ => fail
             | _ => destruct (succeeded_reads l) as (? & ? & ? & ?)
             end
         end.

(** X25: the commands [uninstall] runs.  No tenant is deleted before
    the list of tenants has been read.  From then on the commands are,
    in the order of the list, one [gofabric8 delete tenant -t <name>
    --as=system:admin] for each namespace of type [user] and for no
    other, with [-y] exactly when the flag was given (not when the
    user typed [y] at the prompt).  The run stops at the first command
    that fails, with exit status 1: the tenants after it are kept.  A
    run that returns has run them all, and none failed. *)
Theorem uninstall_follows_plan confirm tr :
  let out := uninstall env Unmarshal confirm tr in
  match omap bodyRead out.2 with
  | [] => omap command out.2 = []
  | [body] =>
      omap command out.2 `prefix_of` plan confirm (Unmarshal body)
      /\ (out.1 = Ok None ->
          omap command out.2 = plan confirm (Unmarshal body)
          /\ omap failedCommand out.2 = [])
      /\ (forall args, args ∈ omap failedCommand out.2 ->
          last (omap command out.2) = Some args /\ out.1 = Stop (Exit 1))
  | _ => False
  end.
Proof.
  cbn zeta.
  destruct (uninstall_shape confirm tr)
    as [(started & last & Hs & Hne & Hc & Hb & _ & Hout)
       |(started & body & Hs & [(msg & Hout)|[Hout
                                |(pre & args & msg & post & Hp & Hout)]])];
    rewrite Hout; cbn [fst snd]; cbn zeta in *; shape_reads;
    rewrite !omap_app;
    repeat match goal with H : omap _ _ = _ |- _ => rewrite H end.
  1:{ by rewrite (omap_singleton_None bodyRead), (omap_singleton_None command)
        by done. }
  all: simpl.
  - split_and!; [apply prefix_nil|done|]. by intros args ?%elem_of_nil.
  - rewrite app_nil_r. split_and!; [done|done|].
    by intros args ?%elem_of_nil.
  - rewrite Hp. split_and!.
    + exists post. by rewrite <- app_assoc.
    + done.
    + intros args' ->%list_elem_of_singleton. by rewrite last_snoc.
Qed.

(** X26: without the flag, [uninstall] does nothing unless the user
    types exactly [y].  A run in which [y] was not typed consists of
    the two warnings, the reading of the answer and the message
    [Aborted], and returns [nil]: the cluster configuration is not
    read, no request is sent and no command is run. *)
Theorem uninstall_needs_confirmation tr :
  let out := uninstall env Unmarshal false tr in
  "y" ∉ omap answer out.2 ->
  exists typed,
    typed <> "y"
    /\ out = (Ok None,
              [EvWarn ("WARNING this command will delete all resources from *ALL TENANTS*"
                       +:+ nl);
               EvWarn (nl +:+ "Continue [y/N]: ");
               EvScanln typed;
               EvWarn ("Aborted" +:+ nl)]).
Proof.
  cbn zeta. intros Hno.
  destruct (uninstall_cases false tr)
    as [(typed & _ & Hn & Hout)|(prompt & [[? _]|[_ ->]] & Hout)]; [|done|].
  - by exists typed.
  - exfalso. apply Hno. rewrite Hout. cbn [snd].
    apply list_elem_of_omap. exists (EvScanln "y"). split; [|done].
    cbn [app]. do 2 apply list_elem_of_further. apply list_elem_of_here.
Qed.

(** X27: how [uninstall] ends.  It never returns an error: it returns
    [nil] or exits with status 1, right after the error was reported.
    The body of the response is closed only by a run that returns, as
    the last thing it does; every exit after the response was received
    leaves it open, the deferred [Close] not being run by [os.Exit]. *)
Theorem uninstall_result confirm tr :
  let out := uninstall env Unmarshal confirm tr in
  match out.1 with
  | Ok e =>
      e = None /\ (omap bodyRead out.2 <> [] -> last out.2 = Some EvClose)
  | Stop h =>
      h = Exit 1 /\ (EvClose ∉ out.2)
      /\ exists msg, last out.2 = Some (EvCheckErr msg)
  end.
Proof.
  cbn zeta.
  destruct (uninstall_shape confirm tr)
    as [(started & last & Hs & Hne & Hc & Hb & Hres & Hout)
       |(started & body & Hs & [(msg & Hout)|[Hout
                                |(pre & args & msg & post & Hp & Hout)]])];
    cbn zeta in *; shape_reads.
  - destruct (uninstall env Unmarshal confirm tr) as [res evs].
    cbn [fst snd] in *. subst evs.
    destruct Hres as [->|[-> [msg ->]]].
    + split; [done|]. rewrite omap_app. simpl. rewrite Hb.
      by match goal with H : omap bodyRead started = [] |- _ => rewrite H end.
    + split; [done|]. split; [|exists msg; by rewrite last_snoc].
      intros [?|Hin]%elem_of_app; [done|].
      by apply list_elem_of_singleton in Hin.
  - rewrite Hout. cbn [fst snd]. split; [done|].
    split; [|exists msg; by rewrite app_assoc, last_snoc].
    intros [?|Hin]%elem_of_app; [done|].
    apply elem_of_cons in Hin as [?|Hin]; [done|].
    by apply list_elem_of_singleton in Hin.
  - rewrite Hout. cbn [fst snd]. split; [done|]. intros _.
    by rewrite !app_assoc, last_snoc.
  - rewrite Hout. cbn [fst snd]. split; [done|].
    split; [|exists msg; by rewrite !app_assoc, last_snoc].
    destruct (succeeded_reads pre) as (_ & _ & _ & Hnot).
    intros [?|Hin]%elem_of_app; [done|].
    apply elem_of_cons in Hin as [?|Hin]; [done|].
    apply elem_of_app in Hin as [?|Hin]; [done|].
    apply elem_of_cons in Hin as [?|Hin]; [done|].
    by apply list_elem_of_singleton in Hin.
Qed.

End Props.

(** *** The theorems on the scripted tenant service *)

Lemma uninstall_needs_confirmation_witness :
  let out := uninstall (served "yes" []) decoded false [] in
  ("y" ∉ omap answer out.2)
  /\ out.1 = Ok None
  /\ omap command out.2 = [].
Proof.
  cbn zeta.
  assert ("y" ∉ omap answer (uninstall (served "yes" []) decoded false []).2)
    as Hno.
  { intros Hin. vm_compute in Hin.
    apply list_elem_of_singleton in Hin. discriminate Hin. }
  split; [exact Hno|].
  destruct (uninstall_needs_confirmation (served "yes" []) decoded [] Hno)
    as (typed & _ & ->).
  by split.
Defined.

Lemma uninstall_follows_plan_witness :
  let out := uninstall (served "y" ["bob"]) decoded false [] in
  omap command out.2 =
    [ ["delete"; "tenant"; "-t"; "alice"; "--as=system:admin"];
      ["delete"; "tenant"; "-t"; "bob"; "--as=system:admin"] ]
  /\ omap command out.2 `prefix_of` plan false tenants
  /\ out.1 = Stop (Exit 1).
Proof.
  cbn zeta. split; [reflexivity|].
  pose proof (uninstall_follows_plan (served "y" ["bob"]) decoded false []) as H.
  cbn zeta in H.
  change (omap bodyRead (uninstall (served "y" ["bob"]) decoded false []).2)
    with ["{...}"] in H.
  destruct H as (Hpre & _ & Hfail). split; [exact Hpre|].
  apply (Hfail ["delete"; "tenant"; "-t"; "bob"; "--as=system:admin"]).
  vm_compute. apply list_elem_of_here.
Defined.

End UninstallProps.
